(** * Option pricers of binomial_option.py and monte_carlo_option.py

    A shallow embedding of the two pricing modules and of the JSON endpoint
    of web_option_server.py.  Python floats are
    modelled as exact real numbers ([R]): rounding, overflow to [inf] and
    [nan] are outside the model.  Python exceptions are modelled by the
    error monad [Result]; an exception is an [Err] carrying the exception
    class (and its message where the code writes one). *)

From Stdlib Require Import Reals Lra Lia ZArith List String Ascii Bool.
Import ListNotations.

Open Scope R_scope.

(** ** Python runtime: exceptions, results and list primitives *)

Inductive PyError : Type :=
| ValueError (msg : string)
| ZeroDivisionError
| IndexError
| TypeError (msg : string)
| AttributeError (attr : string)
| NameError (name : string)
(** a construct the embedding does not model; no theorem concludes it *)
| Unmodelled.

Inductive Result (A : Type) : Type :=
| Ok (a : A)
| Err (e : PyError).
Arguments Ok {A} a.
Arguments Err {A} e.

Definition bind {A B : Type} (m : Result A) (k : A -> Result B) : Result B :=
  match m with
  | Ok a => k a
  | Err e => Err e
  end.

Notation "x <- m ;; k" := (bind m (fun x => k))
  (at level 61, m at next level, right associativity).

(** [a / b] on Python numbers: division by zero raises. *)
Definition py_div (a b : R) : Result R :=
  if Req_EM_T b 0 then Err ZeroDivisionError else Ok (a / b).

(** [math.sqrt]: a negative argument raises [ValueError]. *)
Definition math_sqrt (x : R) : Result R :=
  if Rlt_dec x 0 then Err (ValueError "math domain error") else Ok (sqrt x).

(** Builtin [max(a, b)]: the second argument replaces the first only when
    it is strictly greater. *)
Definition py_max (a b : R) : R := if Rlt_dec a b then b else a.

(** [range(n)] *)
Definition py_range (n : Z) : list Z := map Z.of_nat (seq 0 (Z.to_nat n)).

(** Python list index normalisation: negative indices count from the end;
    [None] is an [IndexError]. *)
Definition py_norm_index (len : nat) (i : Z) : option nat :=
  let j := if (i <? 0)%Z then (i + Z.of_nat len)%Z else i in
  if ((0 <=? j)%Z && (j <? Z.of_nat len)%Z)%bool then Some (Z.to_nat j) else None.

(** [l[i]] *)
Definition py_getitem {A : Type} (l : list A) (i : Z) : Result A :=
  match py_norm_index (List.length l) i with
  | Some n =>
      match nth_error l n with
      | Some x => Ok x
      | None => Err IndexError
      end
  | None => Err IndexError
  end.

Fixpoint replace_nth {A : Type} (l : list A) (n : nat) (v : A) : list A :=
  match l, n with
  | [], _ => []
  | _ :: t, O => v :: t
  | x :: t, S n' => x :: replace_nth t n' v
  end.

(** [l[i] = v] *)
Definition py_setitem {A : Type} (l : list A) (i : Z) (v : A) : Result (list A) :=
  match py_norm_index (List.length l) i with
  | Some n => Ok (replace_nth l n v)
  | None => Err IndexError
  end.

(** A list comprehension whose element expression may raise. *)
Fixpoint map_result {A B : Type} (f : A -> Result B) (l : list A) : Result (list B) :=
  match l with
  | [] => Ok []
  | x :: t => y <- f x ;; ys <- map_result f t ;; Ok (y :: ys)
  end.

(** ** binomial_option.py *)

Module BinomialOption.

(** [_validate_parameters]; [rate] is a parameter but is never examined. *)
Definition _validate_parameters (spot strike maturity rate volatility : R)
    (steps : Z) : Result unit :=
  if Rle_dec spot 0 then Err (ValueError "Spot price must be positive.") else
  if Rle_dec strike 0 then Err (ValueError "Strike price must be positive.") else
  if Rle_dec maturity 0 then Err (ValueError "Maturity must be positive.") else
  if (steps <=? 0)%Z then Err (ValueError "Steps must be a positive integer.") else
  if Rlt_dec volatility 0 then Err (ValueError "Volatility must be non-negative.") else
  Ok tt.

Record BinomialTreeResult : Type := {
  price : R;
  asset_prices : list (list R);
  option_values : list (list R)
}.

Definition arbitrage_message : string :=
  "Arbitrage detected: adjust parameters (N, sigma, or rate).".

Definition option_type_message : string :=
  "option_type must be 'call' or 'put'.".

(** The payoff [max(price - strike, 0)] for a call, [max(strike - price, 0)]
    otherwise; the code writes it once for the terminal values and once for
    the intrinsic value of an American node. *)
Definition exercise_value (option_type : string) (strike s : R) : R :=
  if String.eqb option_type "call" then py_max (s - strike) 0
  else py_max (strike - s) 0.

(** [[spot * (up ** j) * (down ** (step - j)) for j in range(step + 1)]] *)
Definition lattice_level (spot up down : R) (step : Z) : list R :=
  map (fun j => spot * powerRZ up j * powerRZ down (step - j)) (py_range (step + 1)).

(** The forward pass: one level per [step in range(steps + 1)]. *)
Definition build_asset_prices (spot up down : R) (steps : Z) : list (list R) :=
  map (lattice_level spot up down) (py_range (steps + 1)).

Section BackwardInduction.

Variables (strike discount probability : R) (option_type : string)
  (american : bool) (asset_prices : list (list R)).

(** The body of the inner loop [for node in range(step + 1)]. *)
Definition node_value (option_values : list (list R)) (step node : Z) : Result R :=
  next <- py_getitem option_values (step + 1) ;;
  v_up <- py_getitem next (node + 1) ;;
  v_down <- py_getitem next node ;;
  let continuation := discount * (probability * v_up + (1 - probability) * v_down) in
  if american then
    level <- py_getitem asset_prices step ;;
    s <- py_getitem level node ;;
    let intrinsic := exercise_value option_type strike s in
    Ok (py_max continuation intrinsic)
  else Ok continuation.

(** The outer loop over the steps still to process, in the order given. *)
Fixpoint backward_induction (todo : list Z) (option_values : list (list R))
    : Result (list (list R)) :=
  match todo with
  | [] => Ok option_values
  | step :: rest =>
      current_values <- map_result (node_value option_values step) (py_range (step + 1)) ;;
      option_values' <- py_setitem option_values step current_values ;;
      backward_induction rest option_values'
  end.

(** The value the inner loop stores at node [j] of level [s]: it reads
    only level [s + 1] of [option_values] (and, for an American option,
    node [j] of level [s] of [asset_prices]). *)
Definition node_formula (option_values : list (list R)) (s j : nat) : R :=
  let next := nth (S s) option_values [] in
  let continuation :=
    discount * (probability * nth (S j) next 0 + (1 - probability) * nth j next 0) in
  if american
  then py_max continuation (exercise_value option_type strike (nth j (nth s asset_prices []) 0))
  else continuation.

(** The state of [option_values] once the levels [n - 1] down to [k] have
    been filled in: all [n + 1] levels exist, the levels [k .. n] have their
    full width, and the levels [k .. n - 1] hold [node_formula]. *)
Definition lattice_invariant (n k : nat) (option_values : list (list R)) : Prop :=
  List.length option_values = S n /\
  (forall s, (k <= s <= n)%nat -> List.length (nth s option_values []) = S s) /\
  (forall s j, (k <= s < n)%nat -> (j <= s)%nat ->
     nth j (nth s option_values []) 0 = node_formula option_values s j).

End BackwardInduction.

(** The derived constants of the lattice, written as the code computes
    them once every division has succeeded. *)
Definition crr_dt (maturity : R) (steps : Z) : R := maturity / IZR steps.

Definition crr_up (maturity volatility : R) (steps : Z) : R :=
  exp (volatility * sqrt (crr_dt maturity steps)).

Definition crr_down (maturity volatility : R) (steps : Z) : R :=
  1 / crr_up maturity volatility steps.

Definition crr_probability (maturity rate volatility : R) (steps : Z) (dividend : R) : R :=
  (exp ((rate - dividend) * crr_dt maturity steps) - crr_down maturity volatility steps)
  / (crr_up maturity volatility steps - crr_down maturity volatility steps).

Definition crr_discount (maturity rate : R) (steps : Z) : R :=
  exp (- rate * crr_dt maturity steps).

(** [range(steps - 1, -1, -1)] *)
Definition range_down (steps : Z) : list Z := rev (py_range steps).

Definition binomial_option_price (spot strike maturity rate volatility : R)
    (steps : Z) (option_type : string) (american : bool) (dividend : R)
    : Result BinomialTreeResult :=
  _ <- _validate_parameters spot strike maturity rate volatility steps ;;
  if negb (String.eqb option_type "call" || String.eqb option_type "put")
  then Err (ValueError option_type_message) else
  dt <- py_div maturity (IZR steps) ;;
  sq <- math_sqrt dt ;;
  let up := exp (volatility * sq) in
  down <- py_div 1 up ;;
  let growth := exp ((rate - dividend) * dt) in
  probability <- py_div (growth - down) (up - down) ;;
  if negb (if Rle_dec 0 probability then if Rle_dec probability 1 then true else false
           else false)
  then Err (ValueError arbitrage_message) else
  let asset_prices := build_asset_prices spot up down steps in
  last_level <- py_getitem asset_prices (-1) ;;
  let terminal_values := map (exercise_value option_type strike) last_level in
  option_values0 <- py_setitem (repeat [] (Z.to_nat (steps + 1))) (-1) terminal_values ;;
  let discount := exp (- rate * dt) in
  option_values <- backward_induction strike discount probability option_type american
                     asset_prices (range_down steps) option_values0 ;;
  level0 <- py_getitem option_values 0 ;;
  p0 <- py_getitem level0 0 ;;
  Ok {| price := p0; asset_prices := asset_prices; option_values := option_values |}.

End BinomialOption.

(** ** monte_carlo_option.py: the pricer *)

Module MonteCarloOption.

Definition _validate_positive (name : string) (value : R) : Result unit :=
  if Rle_dec value 0 then Err (ValueError (String.append name " must be positive."))
  else Ok tt.

(** [_validate_inputs]; [rate] is a parameter but is never examined. *)
Definition _validate_inputs (spot maturity rate volatility : R) (steps paths : Z)
    : Result unit :=
  _ <- _validate_positive "spot" spot ;;
  _ <- _validate_positive "maturity" maturity ;;
  _ <- _validate_positive "steps" (IZR steps) ;;
  _ <- _validate_positive "paths" (IZR paths) ;;
  if Rlt_dec volatility 0 then Err (ValueError "volatility must be non-negative.")
  else Ok tt.

Record MonteCarloResult : Type := {
  price : R;
  payoffs : list R;
  paths : list (list R)
}.

(** [sum(xs)]: left to right from the integer 0. *)
Definition py_sum (xs : list R) : R := fold_left Rplus xs 0.

Section Simulation.

(** The source of standard-normal samples: the [k]-th call of
    [gauss(0, 1)] returns [draws k].  The position of the next draw is
    threaded through the loops. *)
Variables (drift diffusion : R) (draws : nat -> R).

(** The payoff callable.  It is a pure function of the terminal price and
    the path, as every payoff built by [payoff_from_expression] is (its
    expressions can call only math functions, [max] and [min], none of which
    mutates the list it receives); it may raise. *)
Variable payoff : R -> list R -> Result R.

(** [for _ in range(steps)]: draw, move the price, append it to [prices]. *)
Fixpoint simulate_path (k : nat) (price : R) (prices : list R) (pos : nat)
    : R * list R * nat :=
  match k with
  | O => (price, prices, pos)
  | S k' =>
      let increment := drift + diffusion * draws pos in
      let price' := price * exp increment in
      simulate_path k' price' (prices ++ [price']) (S pos)
  end.

(** [for _ in range(paths)]: one path, appended to [simulated_paths], and
    its payoff, appended to [payoffs]. *)
Fixpoint simulate_paths (m : nat) (spot : R) (steps : nat)
    (simulated_paths : list (list R)) (payoffs : list R) (pos : nat)
    : Result (list (list R) * list R * nat) :=
  match m with
  | O => Ok (simulated_paths, payoffs, pos)
  | S m' =>
      let '(price, prices, pos') := simulate_path steps spot [spot] pos in
      v <- payoff price prices ;;
      simulate_paths m' spot steps (simulated_paths ++ [prices]) (payoffs ++ [v]) pos'
  end.

End Simulation.

Definition monte_carlo_option_price (spot maturity rate volatility : R) (steps paths : Z)
    (payoff : R -> list R -> Result R) (draws : nat -> R) : Result MonteCarloResult :=
  _ <- _validate_inputs spot maturity rate volatility steps paths ;;
  dt <- py_div maturity (IZR steps) ;;
  let drift := (rate - 0.5 * volatility * volatility) * dt in
  sq <- math_sqrt dt ;;
  let diffusion := volatility * sq in
  run <- simulate_paths drift diffusion draws payoff (Z.to_nat paths) spot (Z.to_nat steps)
           [] [] 0 ;;
  let '(simulated_paths, payoffs, _) := run in
  let discount_factor := exp (- rate * maturity) in
  price_estimate <- py_div (discount_factor * py_sum payoffs) (INR (List.length payoffs)) ;;
  Ok {| price := price_estimate; payoffs := payoffs; paths := simulated_paths |}.

End MonteCarloOption.

(** ** monte_carlo_option.py: payoff expressions *)

Module PayoffExpression.

(** *** Python's [ast] node classes used by [ast.parse(mode="eval")] *)

Inductive expr_context : Type := Load | Store | Del.

Inductive operator : Type :=
| Add | Sub | Mult | MatMult | Div | Mod | Pow | LShift | RShift
| BitOr | BitXor | BitAnd | FloorDiv.

Inductive unaryop : Type := Invert | Not | UAdd | USub.

Inductive boolop : Type := And | Or.

Inductive cmpop : Type := Eq | NotEq | Lt | LtE | Gt | GtE | Is | IsNot | In | NotIn.

(** [Constant.value]; a float literal [m.f] is kept as its decimal digits
    [mantissa] and the number [exponent] of digits after the point. *)
Inductive constant : Type :=
| CInt (z : Z)
| CFloat (mantissa : Z) (exponent : nat)
| CStr (s : string)
| CTrue | CFalse | CNone.

#[local] Set Warnings "-register-all".

(** The expression nodes.  The last five are node kinds the validator does
    not allow. *)
Inductive expr : Type :=
| BoolOp (op : boolop) (values : list expr)
| BinOp (left : expr) (op : operator) (right : expr)
| UnaryOp (op : unaryop) (operand : expr)
| IfExp (test body orelse : expr)
| Compare (left : expr) (ops : list cmpop) (comparators : list expr)
(** [keywords] holds the [ast.keyword] nodes: argument name and value *)
| Call (func : expr) (args : list expr) (keywords : list (option string * expr))
| Constant (value : constant)
| Attribute (value : expr) (attr : string) (ctx : expr_context)
| Subscript (value slice : expr) (ctx : expr_context)
| Name (id : string) (ctx : expr_context)
| List (elts : list expr) (ctx : expr_context)
| Tuple (elts : list expr) (ctx : expr_context)
| Slice (lower upper step : option expr)
| Lambda (body : expr)
| Starred (value : expr) (ctx : expr_context)
| NamedExpr (target value : expr)
| Dict (keys values : list expr)
| Set_ (elts : list expr). (* ast.Set *)

(** The root node of [mode="eval"]. *)
Inductive mod_ : Type := Expression (body : expr).

(** *** [ast.parse(expression, mode="eval")] on a fragment of the grammar

    A tokenizer and a recursive-descent parser for Python's expression
    grammar: names, integer and decimal literals, single-line string
    literals without escapes, every unary, binary, boolean and comparison
    operator, conditional expressions, calls with positional arguments,
    attributes, subscripts and slices, and parenthesised or bracketed
    lists and tuples.  Input outside that fragment (comprehensions, lambda,
    keyword or starred arguments, dict and set displays, exponents, escapes,
    comments, line breaks, leading blanks, an unparenthesised tuple, ...)
    yields [OutsideFragment]: no theorem is about such input. *)

Inductive token : Type :=
| TName (s : string)
| TKeyword (s : string)
| TInt (z : Z)
| TFloat (mantissa : Z) (exponent : nat)
| TStr (s : string)
| TOp (s : string).

Inductive lex_result : Type :=
| LexOk (ts : list token)
| LexSyntaxError
| LexOutside.

Definition python_keywords : list string :=
  ["False"; "None"; "True"; "and"; "as"; "assert"; "async"; "await"; "break";
   "class"; "continue"; "def"; "del"; "elif"; "else"; "except"; "finally"; "for";
   "from"; "global"; "if"; "import"; "in"; "is"; "lambda"; "nonlocal"; "not"; "or";
   "pass"; "raise"; "return"; "try"; "while"; "with"; "yield"]%string.

Definition mem_string (s : string) (l : list string) : bool := existsb (String.eqb s) l.

Definition is_digit (c : ascii) : bool :=
  let n := nat_of_ascii c in (Nat.leb 48 n && Nat.leb n 57)%bool.

Definition is_ident_start (c : ascii) : bool :=
  let n := nat_of_ascii c in
  (Nat.leb 65 n && Nat.leb n 90 || Nat.leb 97 n && Nat.leb n 122 || Nat.eqb n 95)%bool.

Definition is_ident_char (c : ascii) : bool := (is_ident_start c || is_digit c)%bool.

Fixpoint span (p : ascii -> bool) (cs : list ascii) : list ascii * list ascii :=
  match cs with
  | c :: rest => if p c then let '(a, b) := span p rest in (c :: a, b) else ([], cs)
  | [] => ([], [])
  end.

Definition digits_value (ds : list ascii) : Z :=
  fold_left (fun acc d => (acc * 10 + Z.of_nat (nat_of_ascii d - 48))%Z) ds 0%Z.

Fixpoint strip_prefix (p cs : list ascii) : option (list ascii) :=
  match p, cs with
  | [], _ => Some cs
  | a :: p', c :: cs' => if Ascii.eqb a c then strip_prefix p' cs' else None
  | _ :: _, [] => None
  end.

Definition cons_token (t : token) (r : lex_result) : lex_result :=
  match r with
  | LexOk ts => LexOk (t :: ts)
  | other => other
  end.

(** Operators of two characters, and the augmented assignments and other
    tokens that lie outside the fragment. *)
Definition two_char_ops : list string :=
  ["**"; "//"; "=="; "!="; "<="; ">="; "<<"; ">>"; "->"; ":="]%string.
Definition outside_ops : list string :=
  ["**="; "//="; ">>="; "<<="; "..."; "+="; "-="; "*="; "/="; "%="; "&="; "|="; "^="; "@="]%string.
Definition one_char_ops : list ascii := list_ascii_of_string "+-*/%@&|^~<>()[]{},:.;=".

Fixpoint first_prefix (ops : list string) (cs : list ascii) : option (string * list ascii) :=
  match ops with
  | [] => None
  | o :: ops' =>
      match strip_prefix (list_ascii_of_string o) cs with
      | Some rest => Some (o, rest)
      | None => first_prefix ops' cs
      end
  end.

Fixpoint lex (fuel : nat) (cs : list ascii) : lex_result :=
  match fuel with
  | O => LexOutside
  | S fuel' =>
  match cs with
  | [] => LexOk []
  | c :: rest =>
    let n := nat_of_ascii c in
    if (Nat.eqb n 32 || Nat.eqb n 9)%bool then lex fuel' rest
    else if is_digit c then
      let '(ds, rest1) := span is_digit cs in
      if (Nat.eqb n 48 && Nat.ltb 1 (List.length ds))%bool then LexOutside else
      match rest1 with
      | d :: rest2 =>
          if Ascii.eqb d "."%char then
            match rest2 with
            | e :: _ =>
                if is_digit e then
                  let '(fs, rest3) := span is_digit rest2 in
                  match rest3 with
                  | g :: _ => if (is_ident_char g || Ascii.eqb g "."%char)%bool then LexOutside
                              else cons_token (TFloat (digits_value (ds ++ fs)) (List.length fs))
                                     (lex fuel' rest3)
                  | [] => cons_token (TFloat (digits_value (ds ++ fs)) (List.length fs)) (LexOk [])
                  end
                else LexOutside
            | [] => LexOutside
            end
          else if is_ident_char d then LexOutside
          else cons_token (TInt (digits_value ds)) (lex fuel' rest1)
      | [] => cons_token (TInt (digits_value ds)) (LexOk [])
      end
    else if is_ident_start c then
      let '(cs1, rest1) := span is_ident_char cs in
      let word := string_of_list_ascii cs1 in
      match rest1 with
      | q :: _ =>
          if (Nat.eqb (nat_of_ascii q) 39 || Nat.eqb (nat_of_ascii q) 34 ||
              Nat.leb 128 (nat_of_ascii q))%bool
          then LexOutside
          else cons_token (if mem_string word python_keywords then TKeyword word else TName word)
                 (lex fuel' rest1)
      | [] => cons_token (if mem_string word python_keywords then TKeyword word else TName word)
                (LexOk [])
      end
    else if (Nat.eqb n 39 || Nat.eqb n 34)%bool then
      let '(body, rest1) :=
        span (fun d => negb (Ascii.eqb d c || Nat.eqb (nat_of_ascii d) 92 ||
                             Nat.eqb (nat_of_ascii d) 10 || Nat.eqb (nat_of_ascii d) 13)%bool) rest in
      match rest1 with
      | d :: rest2 => if Ascii.eqb d c then cons_token (TStr (string_of_list_ascii body)) (lex fuel' rest2)
                      else LexOutside
      | [] => LexSyntaxError
      end
    else
      match first_prefix outside_ops cs with
      | Some _ => LexOutside
      | None =>
      match first_prefix two_char_ops cs with
      | Some (o, rest1) => cons_token (TOp o) (lex fuel' rest1)
      | None =>
          if existsb (Ascii.eqb c) one_char_ops then
            match rest with
            | d :: _ => if (Ascii.eqb c "."%char && is_digit d)%bool then LexOutside
                        else cons_token (TOp (String c EmptyString)) (lex fuel' rest)
            | [] => cons_token (TOp (String c EmptyString)) (LexOk [])
            end
          else if (Nat.eqb n 33 || Nat.eqb n 36 || Nat.eqb n 63 || Nat.eqb n 96)%bool
          then LexSyntaxError
          else LexOutside
      end
      end
  end
  end.

Inductive parse_failure : Type := PSyntaxError | POutside.

Inductive presult (A : Type) : Type :=
| POk (a : A) (rest : list token)
| PFail (f : parse_failure).
Arguments POk {A} a rest.
Arguments PFail {A} f.

Definition is_op (s : string) (t : token) : bool :=
  match t with TOp o => String.eqb o s | _ => false end.

Definition is_kw (s : string) (t : token) : bool :=
  match t with TKeyword k => String.eqb k s | _ => false end.

Definition starts_with_kw (ks : list string) (ts : list token) : bool :=
  match ts with t :: _ => existsb (fun k => is_kw k t) ks | [] => false end.

(** What follows a complete element where only [,] or a closing bracket
    may: a comprehension, a walrus or an [=] lies outside the fragment,
    anything else is a syntax error. *)
Definition after_element (t : token) : parse_failure :=
  if (is_kw "for" t || is_kw "async" t || is_op ":=" t || is_op "=" t)%bool
  then POutside else PSyntaxError.

Fixpoint assoc_op (o : string) (ops : list (string * operator)) : option operator :=
  match ops with
  | [] => None
  | (s, op) :: ops' => if String.eqb o s then Some op else assoc_op o ops'
  end.

Definition bor_ops : list (string * operator) := [("|", BitOr)]%string.
Definition bxor_ops : list (string * operator) := [("^", BitXor)]%string.
Definition band_ops : list (string * operator) := [("&", BitAnd)]%string.
Definition shift_ops : list (string * operator) := [("<<", LShift); (">>", RShift)]%string.
Definition arith_ops : list (string * operator) := [("+", Add); ("-", Sub)]%string.
Definition term_ops : list (string * operator) :=
  [("*", Mult); ("/", Div); ("//", FloorDiv); ("%", Mod); ("@", MatMult)]%string.

(** [acc (op next)*], left-associative. *)
Fixpoint left_assoc (fuel : nat) (next : list token -> presult expr)
    (ops : list (string * operator)) (acc : expr) (ts : list token) : presult expr :=
  match fuel with
  | O => PFail POutside
  | S f =>
      match ts with
      | TOp o :: ts1 =>
          match assoc_op o ops with
          | Some op =>
              match next ts1 with
              | POk r ts2 => left_assoc f next ops (BinOp acc op r) ts2
              | PFail x => PFail x
              end
          | None => POk acc ts
          end
      | _ => POk acc ts
      end
  end.

(** [(kw next)*] for [and] and [or], collecting the operands. *)
Fixpoint bool_tail (fuel : nat) (kw : string) (next : list token -> presult expr)
    (acc : list expr) (ts : list token) : presult (list expr) :=
  match fuel with
  | O => PFail POutside
  | S f =>
      match ts with
      | t :: ts1 =>
          if is_kw kw t then
            match next ts1 with
            | POk e ts2 => bool_tail f kw next (e :: acc) ts2
            | PFail x => PFail x
            end
          else POk (rev acc) ts
      | [] => POk (rev acc) []
      end
  end.

Definition comp_op (ts : list token) : option (cmpop * list token) :=
  match ts with
  | TOp o :: ts1 =>
      if String.eqb o "<" then Some (Lt, ts1)
      else if String.eqb o ">" then Some (Gt, ts1)
      else if String.eqb o "==" then Some (Eq, ts1)
      else if String.eqb o ">=" then Some (GtE, ts1)
      else if String.eqb o "<=" then Some (LtE, ts1)
      else if String.eqb o "!=" then Some (NotEq, ts1)
      else None
  | TKeyword k :: ts1 =>
      if String.eqb k "in" then Some (In, ts1)
      else if String.eqb k "not" then
        match ts1 with
        | t :: ts2 => if is_kw "in" t then Some (NotIn, ts2) else None
        | [] => None
        end
      else if String.eqb k "is" then
        match ts1 with
        | t :: ts2 => if is_kw "not" t then Some (IsNot, ts2) else Some (Is, ts1)
        | [] => Some (Is, ts1)
        end
      else None
  | _ => None
  end.

(** [(comp_op next)*], collecting operators and comparators. *)
Fixpoint comp_tail (fuel : nat) (next : list token -> presult expr)
    (ops : list cmpop) (cs : list expr) (ts : list token) : presult (list cmpop * list expr) :=
  match fuel with
  | O => PFail POutside
  | S f =>
      match comp_op ts with
      | Some (op, ts1) =>
          match next ts1 with
          | POk e ts2 => comp_tail f next (op :: ops) (e :: cs) ts2
          | PFail x => PFail x
          end
      | None => POk (rev ops, rev cs) ts
      end
  end.

Definition keyword_argument (ts : list token) : bool :=
  match ts with
  | TName _ :: t :: _ => is_op "=" t
  | _ => false
  end.

(** One function per level of Python's expression grammar. *)
Fixpoint p_test (fuel : nat) (ts : list token) : presult expr :=
  match fuel with
  | O => PFail POutside
  | S f =>
    if starts_with_kw ["lambda"; "yield"]%string ts then PFail POutside else
    match p_or f ts with
    | POk body ts1 =>
        match ts1 with
        | t :: ts2 =>
            if is_kw "if" t then
              match p_or f ts2 with
              | POk cond (t' :: ts3) =>
                  if is_kw "else" t' then
                    match p_test f ts3 with
                    | POk orelse ts4 => POk (IfExp cond body orelse) ts4
                    | PFail x => PFail x
                    end
                  else PFail PSyntaxError
              | POk _ [] => PFail PSyntaxError
              | PFail x => PFail x
              end
            else POk body ts1
        | [] => POk body []
        end
    | PFail x => PFail x
    end
  end
with p_or (fuel : nat) (ts : list token) : presult expr :=
  match fuel with
  | O => PFail POutside
  | S f =>
      match p_and f ts with
      | POk a ts1 =>
          match bool_tail f "or" (p_and f) [a] ts1 with
          | POk [e] ts2 => POk e ts2
          | POk es ts2 => POk (BoolOp Or es) ts2
          | PFail x => PFail x
          end
      | PFail x => PFail x
      end
  end
with p_and (fuel : nat) (ts : list token) : presult expr :=
  match fuel with
  | O => PFail POutside
  | S f =>
      match p_not f ts with
      | POk a ts1 =>
          match bool_tail f "and" (p_not f) [a] ts1 with
          | POk [e] ts2 => POk e ts2
          | POk es ts2 => POk (BoolOp And es) ts2
          | PFail x => PFail x
          end
      | PFail x => PFail x
      end
  end
with p_not (fuel : nat) (ts : list token) : presult expr :=
  match fuel with
  | O => PFail POutside
  | S f =>
      match ts with
      | t :: ts1 =>
          if is_kw "not" t then
            match p_not f ts1 with
            | POk e ts2 => POk (UnaryOp Not e) ts2
            | PFail x => PFail x
            end
          else p_comparison f ts
      | [] => PFail PSyntaxError
      end
  end
with p_comparison (fuel : nat) (ts : list token) : presult expr :=
  match fuel with
  | O => PFail POutside
  | S f =>
      match p_bor f ts with
      | POk l ts1 =>
          match comp_tail f (p_bor f) [] [] ts1 with
          | POk ([], _) ts2 => POk l ts2
          | POk (ops, cs) ts2 => POk (Compare l ops cs) ts2
          | PFail x => PFail x
          end
      | PFail x => PFail x
      end
  end
with p_bor (fuel : nat) (ts : list token) : presult expr :=
  match fuel with
  | O => PFail POutside
  | S f =>
      match p_bxor f ts with
      | POk l ts1 => left_assoc f (p_bxor f) bor_ops l ts1
      | PFail x => PFail x
      end
  end
with p_bxor (fuel : nat) (ts : list token) : presult expr :=
  match fuel with
  | O => PFail POutside
  | S f =>
      match p_band f ts with
      | POk l ts1 => left_assoc f (p_band f) bxor_ops l ts1
      | PFail x => PFail x
      end
  end
with p_band (fuel : nat) (ts : list token) : presult expr :=
  match fuel with
  | O => PFail POutside
  | S f =>
      match p_shift f ts with
      | POk l ts1 => left_assoc f (p_shift f) band_ops l ts1
      | PFail x => PFail x
      end
  end
with p_shift (fuel : nat) (ts : list token) : presult expr :=
  match fuel with
  | O => PFail POutside
  | S f =>
      match p_arith f ts with
      | POk l ts1 => left_assoc f (p_arith f) shift_ops l ts1
      | PFail x => PFail x
      end
  end
with p_arith (fuel : nat) (ts : list token) : presult expr :=
  match fuel with
  | O => PFail POutside
  | S f =>
      match p_term f ts with
      | POk l ts1 => left_assoc f (p_term f) arith_ops l ts1
      | PFail x => PFail x
      end
  end
with p_term (fuel : nat) (ts : list token) : presult expr :=
  match fuel with
  | O => PFail POutside
  | S f =>
      match p_factor f ts with
      | POk l ts1 => left_assoc f (p_factor f) term_ops l ts1
      | PFail x => PFail x
      end
  end
with p_factor (fuel : nat) (ts : list token) : presult expr :=
  match fuel with
  | O => PFail POutside
  | S f =>
      match ts with
      | t :: ts1 =>
          let unary op :=
            match p_factor f ts1 with
            | POk e ts2 => POk (UnaryOp op e) ts2
            | PFail x => PFail x
            end in
          if is_op "-" t then unary USub
          else if is_op "+" t then unary UAdd
          else if is_op "~" t then unary Invert
          else p_power f ts
      | [] => PFail PSyntaxError
      end
  end
with p_power (fuel : nat) (ts : list token) : presult expr :=
  match fuel with
  | O => PFail POutside
  | S f =>
      if starts_with_kw ["await"]%string ts then PFail POutside else
      match p_atom_expr f ts with
      | POk base (t :: ts1) =>
          if is_op "**" t then
            match p_factor f ts1 with
            | POk e ts2 => POk (BinOp base Pow e) ts2
            | PFail x => PFail x
            end
          else POk base (t :: ts1)
      | POk base [] => POk base []
      | PFail x => PFail x
      end
  end
with p_atom_expr (fuel : nat) (ts : list token) : presult expr :=
  match fuel with
  | O => PFail POutside
  | S f =>
      match p_atom f ts with
      | POk a ts1 => p_trailers f a ts1
      | PFail x => PFail x
      end
  end
with p_trailers (fuel : nat) (acc : expr) (ts : list token) : presult expr :=
  match fuel with
  | O => PFail POutside
  | S f =>
      match ts with
      | t :: ts1 =>
          if is_op "(" t then
            match p_args f [] ts1 with
            | POk args ts2 => p_trailers f (Call acc args []) ts2
            | PFail x => PFail x
            end
          else if is_op "[" t then
            match p_subscript f ts1 with
            | POk sl ts2 => p_trailers f (Subscript acc sl Load) ts2
            | PFail x => PFail x
            end
          else if is_op "." t then
            match ts1 with
            | TName n :: ts2 => p_trailers f (Attribute acc n Load) ts2
            | _ => PFail PSyntaxError
            end
          else POk acc ts
      | [] => POk acc []
      end
  end
(** positional arguments up to the closing parenthesis *)
with p_args (fuel : nat) (acc : list expr) (ts : list token) : presult (list expr) :=
  match fuel with
  | O => PFail POutside
  | S f =>
      match ts with
      | t :: ts1 =>
          if is_op ")" t then POk (rev acc) ts1
          else if (is_op "*" t || is_op "**" t || keyword_argument ts)%bool then PFail POutside
          else
            match p_test f ts with
            | POk e (t' :: ts2) =>
                if is_op ")" t' then POk (rev (e :: acc)) ts2
                else if is_op "," t' then p_args f (e :: acc) ts2
                else PFail (after_element t')
            | POk _ [] => PFail PSyntaxError
            | PFail x => PFail x
            end
      | [] => PFail PSyntaxError
      end
  end
(** the inside of [value[...]]: an expression or a slice *)
with p_subscript (fuel : nat) (ts : list token) : presult expr :=
  match fuel with
  | O => PFail POutside
  | S f =>
      let fail t := PFail (if is_op "," t then POutside else after_element t) in
      match p_opt_test f [":"]%string ts with
      | POk lo (t :: ts1) =>
          if is_op ":" t then
            match p_opt_test f [":"; "]"]%string ts1 with
            | POk up (t2 :: ts2) =>
                if is_op ":" t2 then
                  match p_opt_test f ["]"]%string ts2 with
                  | POk st (t3 :: ts3) =>
                      if is_op "]" t3 then POk (Slice lo up st) ts3 else fail t3
                  | POk _ [] => PFail PSyntaxError
                  | PFail x => PFail x
                  end
                else if is_op "]" t2 then POk (Slice lo up None) ts2
                else fail t2
            | POk _ [] => PFail PSyntaxError
            | PFail x => PFail x
            end
          else if is_op "]" t then
            match lo with
            | Some e => POk e ts1
            | None => PFail PSyntaxError
            end
          else fail t
      | POk _ [] => PFail PSyntaxError
      | PFail x => PFail x
      end
  end
(** an optional expression, absent when one of [stops] comes next *)
with p_opt_test (fuel : nat) (stops : list string) (ts : list token) : presult (option expr) :=
  match fuel with
  | O => PFail POutside
  | S f =>
      match ts with
      | t :: _ =>
          if existsb (fun s => is_op s t) stops then POk None ts
          else
            match p_test f ts with
            | POk e ts1 => POk (Some e) ts1
            | PFail x => PFail x
            end
      | [] => PFail PSyntaxError
      end
  end
(** the elements after the first comma of a tuple or list display *)
with p_seq (fuel : nat) (close : string) (acc : list expr) (ts : list token) : presult (list expr) :=
  match fuel with
  | O => PFail POutside
  | S f =>
      match ts with
      | t :: ts1 =>
          if is_op close t then POk (rev acc) ts1
          else if is_op "*" t then PFail POutside
          else
            match p_test f ts with
            | POk e (t' :: ts2) =>
                if is_op close t' then POk (rev (e :: acc)) ts2
                else if is_op "," t' then p_seq f close (e :: acc) ts2
                else PFail (after_element t')
            | POk _ [] => PFail PSyntaxError
            | PFail x => PFail x
            end
      | [] => PFail PSyntaxError
      end
  end
with p_atom (fuel : nat) (ts : list token) : presult expr :=
  match fuel with
  | O => PFail POutside
  | S f =>
      match ts with
      | TName n :: ts1 => POk (Name n Load) ts1
      | TInt z :: ts1 => POk (Constant (CInt z)) ts1
      | TFloat m e :: ts1 => POk (Constant (CFloat m e)) ts1
      | TStr s :: ts1 =>
          match ts1 with
          | TStr _ :: _ => PFail POutside
          | _ => POk (Constant (CStr s)) ts1
          end
      | TKeyword k :: ts1 =>
          if String.eqb k "True" then POk (Constant CTrue) ts1
          else if String.eqb k "False" then POk (Constant CFalse) ts1
          else if String.eqb k "None" then POk (Constant CNone) ts1
          else if mem_string k ["lambda"; "await"; "yield"]%string then PFail POutside
          else PFail PSyntaxError
      | TOp o :: ts1 =>
          if String.eqb o "(" then
            match ts1 with
            | t :: ts2 =>
                if is_op ")" t then POk (Tuple [] Load) ts2
                else if (is_op "*" t || is_kw "yield" t)%bool then PFail POutside
                else
                  match p_test f ts1 with
                  | POk e (t2 :: ts3) =>
                      if is_op ")" t2 then POk e ts3
                      else if is_op "," t2 then
                        match p_seq f ")" [e] ts3 with
                        | POk es ts4 => POk (Tuple es Load) ts4
                        | PFail x => PFail x
                        end
                      else PFail (after_element t2)
                  | POk _ [] => PFail PSyntaxError
                  | PFail x => PFail x
                  end
            | [] => PFail PSyntaxError
            end
          else if String.eqb o "[" then
            match ts1 with
            | t :: ts2 =>
                if is_op "]" t then POk (List [] Load) ts2
                else if is_op "*" t then PFail POutside
                else
                  match p_test f ts1 with
                  | POk e (t2 :: ts3) =>
                      if is_op "]" t2 then POk (List [e] Load) ts3
                      else if is_op "," t2 then
                        match p_seq f "]" [e] ts3 with
                        | POk es ts4 => POk (List es Load) ts4
                        | PFail x => PFail x
                        end
                      else PFail (after_element t2)
                  | POk _ [] => PFail PSyntaxError
                  | PFail x => PFail x
                  end
            | [] => PFail PSyntaxError
            end
          else if String.eqb o "{" then PFail POutside
          else PFail PSyntaxError
      | [] => PFail PSyntaxError
      end
  end.

Inductive parse_outcome : Type :=
| Parsed (tree : mod_)
| ParseSyntaxError
| ParseOutside.

(** [ast.parse(expression, mode="eval")] *)
Definition ast_parse (expression : string) : parse_outcome :=
  let cs := list_ascii_of_string expression in
  match cs with
  | [] => ParseSyntaxError
  | c :: _ =>
    if (Nat.eqb (nat_of_ascii c) 32 || Nat.eqb (nat_of_ascii c) 9)%bool then ParseOutside else
    match lex (S (List.length cs)) cs with
    | LexOk [] => ParseSyntaxError
    | LexOk ts =>
        match p_test (20 * S (List.length ts)) ts with
        | POk e [] => Parsed (Expression e)
        | POk _ (t :: _) => if is_op "," t then ParseOutside else ParseSyntaxError
        | PFail PSyntaxError => ParseSyntaxError
        | PFail POutside => ParseOutside
        end
    | LexSyntaxError => ParseSyntaxError
    | LexOutside => ParseOutside
    end
  end.

(** *** [_ExpressionValidator] *)

(** [dir(math)] in CPython 3.11. *)
Definition math_dir : list string :=
  ["__doc__"; "__loader__"; "__name__"; "__package__"; "__spec__"; "acos"; "acosh";
   "asin"; "asinh"; "atan"; "atan2"; "atanh"; "cbrt"; "ceil"; "comb"; "copysign"; "cos";
   "cosh"; "degrees"; "dist"; "e"; "erf"; "erfc"; "exp"; "exp2"; "expm1"; "fabs";
   "factorial"; "floor"; "fmod"; "frexp"; "fsum"; "gamma"; "gcd"; "hypot"; "inf";
   "isclose"; "isfinite"; "isinf"; "isnan"; "isqrt"; "lcm"; "ldexp"; "lgamma"; "log";
   "log10"; "log1p"; "log2"; "modf"; "nan"; "nextafter"; "perm"; "pi"; "pow"; "prod";
   "radians"; "remainder"; "sin"; "sinh"; "sqrt"; "tan"; "tanh"; "tau"; "trunc"; "ulp"]%string.

Definition _allowed_names : list string := ["price"; "path"]%string.
Definition _helper_functions : list string := ["max"; "min"]%string.

(** [{name for name in dir(math) if not name.startswith("__")}], updated
    with the helper functions *)
Definition math_public : list string := filter (fun n => negb (String.prefix "__" n)) math_dir.
Definition _allowed_functions : list string := math_public ++ _helper_functions.

Definition operator_name (op : operator) : string :=
  match op with
  | Add => "Add" | Sub => "Sub" | Mult => "Mult" | MatMult => "MatMult" | Div => "Div"
  | Mod => "Mod" | Pow => "Pow" | LShift => "LShift" | RShift => "RShift"
  | BitOr => "BitOr" | BitXor => "BitXor" | BitAnd => "BitAnd" | FloorDiv => "FloorDiv"
  end.

Definition unaryop_name (op : unaryop) : string :=
  match op with Invert => "Invert" | Not => "Not" | UAdd => "UAdd" | USub => "USub" end.

Definition cmpop_name (op : cmpop) : string :=
  match op with
  | Eq => "Eq" | NotEq => "NotEq" | Lt => "Lt" | LtE => "LtE" | Gt => "Gt" | GtE => "GtE"
  | Is => "Is" | IsNot => "IsNot" | In => "In" | NotIn => "NotIn"
  end.

Definition context_name (c : expr_context) : string :=
  match c with Load => "Load" | Store => "Store" | Del => "Del" end.

(** membership in [_allowed_nodes] *)
Definition operator_allowed (op : operator) : bool :=
  match op with
  | MatMult | LShift | RShift | BitOr | BitXor | BitAnd => false
  | _ => true
  end.

Definition unaryop_allowed (op : unaryop) : bool :=
  match op with Invert | Not => false | _ => true end.

Definition cmpop_allowed (op : cmpop) : bool :=
  match op with Is | IsNot | In | NotIn => false | _ => true end.

Definition context_allowed (c : expr_context) : bool :=
  match c with Load => true | _ => false end.

Definition expr_allowed (e : expr) : bool :=
  match e with
  | Lambda _ | Starred _ _ | NamedExpr _ _ | Dict _ _ | Set_ _ => false
  | _ => true
  end.

(** [ast.dump] of a node that is not allowed.  It is exact for the
    field-less operator and context nodes; the expression and keyword nodes
    that are not allowed never come out of [ast_parse], and their dump is
    abbreviated to the class name. *)
Definition expr_dump_rejected (e : expr) : string :=
  match e with
  | Lambda _ => "Lambda(...)" | Starred _ _ => "Starred(...)"
  | NamedExpr _ _ => "NamedExpr(...)" | Dict _ _ => "Dict(...)" | Set_ _ => "Set(...)"
  | _ => ""
  end.

Definition unsupported (dump : string) : Result unit :=
  Err (ValueError (String.append "Unsupported expression: " dump)).

(** [visit] of a field-less node: the [_allowed_nodes] test, and nothing to
    traverse *)
Definition visit_operator (op : operator) : Result unit :=
  if operator_allowed op then Ok tt else unsupported (String.append (operator_name op) "()").
Definition visit_unaryop (op : unaryop) : Result unit :=
  if unaryop_allowed op then Ok tt else unsupported (String.append (unaryop_name op) "()").
Definition visit_cmpop (op : cmpop) : Result unit :=
  if cmpop_allowed op then Ok tt else unsupported (String.append (cmpop_name op) "()").
Definition visit_ctx (c : expr_context) : Result unit :=
  if context_allowed c then Ok tt else unsupported (String.append (context_name c) "()").
(** [And] and [Or] are both allowed *)
Definition visit_boolop (op : boolop) : Result unit := Ok tt.
(** [ast.keyword] is not an allowed node *)
Definition visit_keyword (k : option string * expr) : Result unit := unsupported "keyword(...)".

Fixpoint visit_each {A : Type} (v : A -> Result unit) (l : list A) : Result unit :=
  match l with
  | [] => Ok tt
  | x :: t => _ <- v x ;; visit_each v t
  end.

Definition visit_option (v : expr -> Result unit) (o : option expr) : Result unit :=
  match o with Some x => v x | None => Ok tt end.

Definition visit_Name (id : string) : Result unit :=
  if (mem_string id _allowed_names || mem_string id _allowed_functions)%bool then Ok tt
  else Err (ValueError (String.append "Unknown name in payoff expression: " id)).

(** the checks of [visit_Call] before its [generic_visit] *)
Definition visit_Call_func (func : expr) : Result unit :=
  match func with
  | Attribute value attr _ =>
      let ok := match value with
                | Name id _ => (String.eqb id "math" && mem_string attr _allowed_functions)%bool
                | _ => false
                end in
      if ok then Ok tt else Err (ValueError "Only math module functions are allowed in calls.")
  | Name id _ =>
      if mem_string id _allowed_functions then Ok tt
      else Err (ValueError (String.append "Function " (String.append id " is not allowed.")))
  | _ => Err (ValueError "Invalid function call in expression.")
  end.

(** [visit]: the [_allowed_nodes] test, then [visit_Name], [visit_Call] or
    [generic_visit], which visits the fields in order. *)
Fixpoint visit (e : expr) : Result unit :=
  if negb (expr_allowed e) then unsupported (expr_dump_rejected e) else
  match e with
  | Name id _ => visit_Name id
  | Call func args keywords =>
      _ <- visit_Call_func func ;;
      _ <- visit func ;;
      _ <- visit_each visit args ;;
      visit_each visit_keyword keywords
  | BoolOp op values => _ <- visit_boolop op ;; visit_each visit values
  | BinOp l op r => _ <- visit l ;; _ <- visit_operator op ;; visit r
  | UnaryOp op operand => _ <- visit_unaryop op ;; visit operand
  | IfExp test body orelse => _ <- visit test ;; _ <- visit body ;; visit orelse
  | Compare l ops cs => _ <- visit l ;; _ <- visit_each visit_cmpop ops ;; visit_each visit cs
  | Constant _ => Ok tt
  | Attribute value _ ctx => _ <- visit value ;; visit_ctx ctx
  | Subscript value sl ctx => _ <- visit value ;; _ <- visit sl ;; visit_ctx ctx
  | List elts ctx => _ <- visit_each visit elts ;; visit_ctx ctx
  | Tuple elts ctx => _ <- visit_each visit elts ;; visit_ctx ctx
  | Slice lo up st => _ <- visit_option visit lo ;; _ <- visit_option visit up ;; visit_option visit st
  | Lambda _ | Starred _ _ | NamedExpr _ _ | Dict _ _ | Set_ _ => Ok tt
  end.

Definition visit_mod (m : mod_) : Result unit :=
  match m with Expression body => visit body end.

(** *** [eval(compiled, allowed_globals, {"price": price, "path": path})]

    Python values on the real-number model of floats.  Float rounding,
    overflow, [inf] and [nan] are outside the model; so are the operators
    [**], [//] and [%], slicing, and the math functions other than [log],
    [sqrt] and [fabs]: evaluating them gives [Unmodelled]. *)

Inductive value : Type :=
| VInt (z : Z)
| VFloat (x : R)
| VBool (b : bool)
| VStr (s : string)
| VNone
| VList (vs : list value)
| VTuple (vs : list value)
(** a builtin function: [max], [min] or a function of [math] *)
| VBuiltin (name : string)
(** the [math] module *)
| VModule
(** a class object, such as [float] *)
| VType (name : string).

Definition type_name (v : value) : string :=
  match v with
  | VInt _ => "int" | VFloat _ => "float" | VBool _ => "bool" | VStr _ => "str"
  | VNone => "NoneType" | VList _ => "list" | VTuple _ => "tuple"
  | VBuiltin _ => "builtin_function_or_method" | VModule => "module" | VType _ => "type"
  end.

(** [bool] is a subclass of [int] *)
Definition as_int (v : value) : option Z :=
  match v with
  | VInt z => Some z
  | VBool b => Some (if b then 1%Z else 0%Z)
  | _ => None
  end.

Definition as_real (v : value) : option R :=
  match v with
  | VFloat x => Some x
  | _ => option_map IZR (as_int v)
  end.

Definition truthy (v : value) : bool :=
  match v with
  | VInt z => negb (Z.eqb z 0)
  | VFloat x => if Req_EM_T x 0 then false else true
  | VBool b => b
  | VStr s => negb (String.eqb s "")
  | VNone => false
  | VList vs | VTuple vs => match vs with [] => false | _ => true end
  | _ => true
  end.

(** [math.pi], [math.e], ... and the functions of [math] *)
Definition math_attribute (name : string) : Result value :=
  if String.eqb name "pi" then Ok (VFloat PI)
  else if String.eqb name "e" then Ok (VFloat (exp 1))
  else if String.eqb name "tau" then Ok (VFloat (2 * PI))
  else if (String.eqb name "inf" || String.eqb name "nan")%bool then Err Unmodelled
  else Ok (VBuiltin name).

(** the locals [price] and [path], then [allowed_globals]; the builtins
    are the empty dict [__builtins__] *)
Definition lookup_name (price : R) (path : list R) (id : string) : Result value :=
  if String.eqb id "price" then Ok (VFloat price)
  else if String.eqb id "path" then Ok (VList (map VFloat path))
  else if mem_string id math_public then math_attribute id
  else if mem_string id _helper_functions then Ok (VBuiltin id)
  else if String.eqb id "math" then Ok VModule
  else if String.eqb id "__builtins__" then Err Unmodelled
  else Err (NameError id).

Definition constant_value (c : constant) : value :=
  match c with
  | CInt z => VInt z
  | CFloat m k => VFloat (IZR m / 10 ^ k)
  | CStr s => VStr s
  | CTrue => VBool true
  | CFalse => VBool false
  | CNone => VNone
  end.

Definition binop_value (op : operator) (a b : value) : Result value :=
  match as_int a, as_int b with
  | Some x, Some y =>
      match op with
      | Add => Ok (VInt (x + y))
      | Sub => Ok (VInt (x - y))
      | Mult => Ok (VInt (x * y))
      | Div => if Z.eqb y 0 then Err ZeroDivisionError else Ok (VFloat (IZR x / IZR y))
      | _ => Err Unmodelled
      end
  | _, _ =>
      match as_real a, as_real b with
      | Some x, Some y =>
          match op with
          | Add => Ok (VFloat (x + y))
          | Sub => Ok (VFloat (x - y))
          | Mult => Ok (VFloat (x * y))
          | Div => if Req_EM_T y 0 then Err ZeroDivisionError else Ok (VFloat (x / y))
          | _ => Err Unmodelled
          end
      | _, _ => Err Unmodelled
      end
  end.

Definition unaryop_value (op : unaryop) (v : value) : Result value :=
  match op with
  | Not => Ok (VBool (negb (truthy v)))
  | _ =>
      match as_int v, v with
      | Some z, _ =>
          match op with
          | USub => Ok (VInt (- z)) | UAdd => Ok (VInt z) | _ => Ok (VInt (Z.lnot z))
          end
      | None, VFloat x =>
          match op with
          | USub => Ok (VFloat (- x)) | UAdd => Ok (VFloat x) | _ => Err Unmodelled
          end
      | None, _ => Err Unmodelled
      end
  end.

(** the comparisons of numbers *)
Definition compare_values (op : cmpop) (a b : value) : Result bool :=
  match as_real a, as_real b with
  | Some x, Some y =>
      match op with
      | Eq => Ok (if Req_EM_T x y then true else false)
      | NotEq => Ok (if Req_EM_T x y then false else true)
      | Lt => Ok (if Rlt_dec x y then true else false)
      | LtE => Ok (if Rle_dec x y then true else false)
      | Gt => Ok (if Rlt_dec y x then true else false)
      | GtE => Ok (if Rle_dec y x then true else false)
      | _ => Err Unmodelled
      end
  | _, _ => Err Unmodelled
  end.

(** builtin [max] and [min]: an item replaces the current one only when it
    compares strictly greater (smaller), so the first extreme item wins *)
Fixpoint extreme (op : cmpop) (cur : value) (items : list value) : Result value :=
  match items with
  | [] => Ok cur
  | v :: rest => b <- compare_values op v cur ;; extreme op (if b then v else cur) rest
  end.

Definition max_min (name : string) (op : cmpop) (args : list value) : Result value :=
  let over items :=
    match items with
    | [] => Err (ValueError (String.append name "() arg is an empty sequence"))
    | v :: rest => extreme op v rest
    end in
  match args with
  | [] => Err (TypeError (String.append name " expected at least 1 argument, got 0"))
  | [VList vs] | [VTuple vs] => over vs
  | [v] => Err (TypeError (String.append "'" (String.append (type_name v) "' object is not iterable")))
  | _ => over args
  end.

(** [math.log(x)], [math.sqrt(x)] and [math.fabs(x)] *)
Definition math_call (name : string) (args : list value) : Result value :=
  match args with
  | [a] =>
      match as_real a with
      | Some x =>
          if String.eqb name "log" then
            if Rlt_dec 0 x then Ok (VFloat (ln x)) else Err (ValueError "math domain error")
          else if String.eqb name "sqrt" then
            if Rle_dec 0 x then Ok (VFloat (sqrt x)) else Err (ValueError "math domain error")
          else if String.eqb name "fabs" then Ok (VFloat (Rabs x))
          else Err Unmodelled
      | None => Err Unmodelled
      end
  | _ => Err Unmodelled
  end.

Definition call_value (f : value) (args : list value) : Result value :=
  match f with
  | VBuiltin name =>
      if String.eqb name "max" then max_min "max" Gt args
      else if String.eqb name "min" then max_min "min" Lt args
      else math_call name args
  | VType _ => Err Unmodelled
  | _ => Err (TypeError (String.append "'" (String.append (type_name f) "' object is not callable")))
  end.

Definition attribute_value (v : value) (attr : string) : Result value :=
  if String.eqb attr "__class__" then Ok (VType (type_name v)) else
  match v with
  | VModule =>
      if mem_string attr math_public then math_attribute attr
      else if String.prefix "__" attr then Err Unmodelled
      else Err (AttributeError attr)
  | _ => Err Unmodelled
  end.

Definition subscript_value (v i : value) : Result value :=
  match v, as_int i with
  | VList vs, Some n | VTuple vs, Some n => py_getitem vs n
  | _, _ => Err Unmodelled
  end.

Fixpoint eval_each (ev : expr -> Result value) (l : list expr) : Result (list value) :=
  match l with
  | [] => Ok []
  | x :: t => v <- ev x ;; vs <- eval_each ev t ;; Ok (v :: vs)
  end.

(** [a and b and ...], [a or b or ...]: the first operand that decides,
    else the last one *)
Fixpoint eval_boolop (ev : expr -> Result value) (op : boolop) (values : list expr) : Result value :=
  match values with
  | [] => Err Unmodelled
  | [x] => ev x
  | x :: rest =>
      v <- ev x ;;
      let decided := match op with And => negb (truthy v) | Or => truthy v end in
      if decided then Ok v else eval_boolop ev op rest
  end.

(** [a < b <= c ...]: pairwise, stopping at the first false comparison *)
Fixpoint eval_compare (ev : expr -> Result value) (left : value) (ops : list cmpop)
    (cs : list expr) {struct cs} : Result value :=
  match cs with
  | c :: cs' =>
      match ops with
      | op :: ops' =>
          r <- ev c ;;
          b <- compare_values op left r ;;
          if b then eval_compare ev r ops' cs' else Ok (VBool false)
      | [] => Ok (VBool true)
      end
  | [] => Ok (VBool true)
  end.

Fixpoint eval (price : R) (path : list R) (e : expr) {struct e} : Result value :=
  match e with
  | Name id _ => lookup_name price path id
  | Constant c => Ok (constant_value c)
  | BinOp l op r => a <- eval price path l ;; b <- eval price path r ;; binop_value op a b
  | UnaryOp op operand => v <- eval price path operand ;; unaryop_value op v
  | BoolOp op values => eval_boolop (eval price path) op values
  | Compare l ops cs => a <- eval price path l ;; eval_compare (eval price path) a ops cs
  | IfExp test body orelse =>
      t <- eval price path test ;;
      if truthy t then eval price path body else eval price path orelse
  | Call func args keywords =>
      f <- eval price path func ;;
      vs <- eval_each (eval price path) args ;;
      match keywords with
      | [] => call_value f vs
      | _ => Err Unmodelled
      end
  | Attribute value attr _ => v <- eval price path value ;; attribute_value v attr
  | Subscript value sl _ => v <- eval price path value ;; i <- eval price path sl ;; subscript_value v i
  | List elts _ => vs <- eval_each (eval price path) elts ;; Ok (VList vs)
  | Tuple elts _ => vs <- eval_each (eval price path) elts ;; Ok (VTuple vs)
  | Slice _ _ _ | Lambda _ | Starred _ _ | NamedExpr _ _ | Dict _ _ | Set_ _ => Err Unmodelled
  end.

(** builtin [float(v)] *)
Definition py_float (v : value) : Result R :=
  match v with
  | VFloat x => Ok x
  | VInt z => Ok (IZR z)
  | VBool b => Ok (if b then 1 else 0)
  | VStr _ => Err Unmodelled
  | _ => Err (TypeError (String.append "float() argument must be a string or a real number, not '"
                          (String.append (type_name v) "'")))
  end.

(** *** [payoff_from_expression] *)

(** The text of the [ValueError] for a syntax error.  Python appends the
    [SyntaxError]'s own text; the model fixes it to CPython's generic
    [invalid syntax] message. *)
Definition syntax_error_message : string :=
  "Invalid payoff expression: invalid syntax (<unknown>, line 1)".

(** the nested [payoff(price, path)] over the compiled tree *)
Definition payoff (tree : mod_) (price : R) (path : list R) : Result R :=
  match tree with
  | Expression body => v <- eval price path body ;; py_float v
  end.

Definition payoff_from_expression (expression : string) : Result (R -> list R -> Result R) :=
  match ast_parse expression with
  | ParseSyntaxError => Err (ValueError syntax_error_message)
  | ParseOutside => Err Unmodelled
  | Parsed tree => _ <- visit_mod tree ;; Ok (payoff tree)
  end.

End PayoffExpression.

(** ** web_option_server.py: the JSON endpoint *)

Module WebOptionServer.

#[local] Set Warnings "-register-all".

(** A JSON document as [request.get_json] decodes it.  An object is the
    list of its members in document order; [dict] keeps the last value of a
    repeated key.  A JSON string is a string of code points below 256. *)
Inductive json : Type :=
| JNull
| JBool (b : bool)
| JInt (z : Z)
| JFloat (x : R)
| JStr (s : string)
| JArray (items : list json)
| JObject (fields : list (string * json)).

(** [data.get(name)]: the last member with that key *)
Fixpoint json_get (fields : list (string * json)) (name : string) : option json :=
  match fields with
  | [] => None
  | (k, v) :: rest =>
      match json_get rest name with
      | Some w => Some w
      | None => if String.eqb k name then Some v else None
      end
  end.

(** [bool(v)] of the decoded value *)
Definition json_truthy (v : json) : bool :=
  match v with
  | JNull => false
  | JBool b => b
  | JInt z => negb (Z.eqb z 0)
  | JFloat x => if Req_EM_T x 0 then false else true
  | JStr s => negb (String.eqb s "")
  | JArray items => match items with [] => false | _ => true end
  | JObject fields => match fields with [] => false | _ => true end
  end.

(** [str.isspace] of a code point below 256 *)
Definition is_space (c : ascii) : bool :=
  let n := nat_of_ascii c in
  ((Nat.leb 9 n && Nat.leb n 13) || (Nat.leb 28 n && Nat.leb n 32) ||
   Nat.eqb n 133 || Nat.eqb n 160)%bool.

Fixpoint drop_spaces (cs : list ascii) : list ascii :=
  match cs with
  | [] => []
  | c :: rest => if is_space c then drop_spaces rest else cs
  end.

(** [s.strip()] *)
Definition py_strip (s : string) : string :=
  string_of_list_ascii (rev (drop_spaces (rev (drop_spaces (list_ascii_of_string s))))).

(** [float(s)] and [int(s)] of a string: a blank string raises
    [ValueError] (whose text the callers replace); which other strings
    convert is not modelled. *)
Definition py_float_of_str (s : string) : Result R :=
  if String.eqb (py_strip s) "" then Err (ValueError "could not convert string to float")
  else Err Unmodelled.

Definition py_int_of_str (s : string) : Result Z :=
  if String.eqb (py_strip s) "" then Err (ValueError "invalid literal for int() with base 10")
  else Err Unmodelled.

Definition json_type_name (v : json) : string :=
  match v with
  | JNull => "NoneType" | JBool _ => "bool" | JInt _ => "int" | JFloat _ => "float"
  | JStr _ => "str" | JArray _ => "list" | JObject _ => "dict"
  end.

(** [float(value)] *)
Definition json_float (v : json) : Result R :=
  match v with
  | JBool b => Ok (if b then 1 else 0)
  | JInt z => Ok (IZR z)
  | JFloat x => Ok x
  | JStr s => py_float_of_str s
  | _ => Err (TypeError (String.append "float() argument must be a string or a real number, not '"
                          (String.append (json_type_name v) "'")))
  end.

(** [int(value)]: a float is truncated toward zero *)
Definition json_int (v : json) : Result Z :=
  match v with
  | JBool b => Ok (if b then 1%Z else 0%Z)
  | JInt z => Ok z
  | JFloat x => Ok (if Rle_dec 0 x then Int_part x else (- Int_part (- x))%Z)
  | JStr s => py_int_of_str s
  | _ => Err (TypeError (String.append
                          "int() argument must be a string, a bytes-like object or a real number, not '"
                          (String.append (json_type_name v) "'")))
  end.

(** [data.get(name, "")] *)
Definition get_or_empty (data : list (string * json)) (name : string) : json :=
  match json_get data name with Some v => v | None => JStr "" end.

(** [as_float] of [_parse_inputs] *)
Definition as_float (data : list (string * json)) (name : string) : Result R :=
  match json_float (get_or_empty data name) with
  | Ok x => Ok x
  | Err (TypeError _) | Err (ValueError _) => Err (ValueError (String.append name " must be a number."))
  | Err e => Err e
  end.

(** [as_int] of [_parse_inputs] *)
Definition as_int (data : list (string * json)) (name : string) : Result Z :=
  int_value <- match json_int (get_or_empty data name) with
               | Ok z => Ok z
               | Err (TypeError _) | Err (ValueError _) =>
                   Err (ValueError (String.append name " must be an integer."))
               | Err e => Err e
               end ;;
  if (int_value <=? 0)%Z then Err (ValueError (String.append name " must be positive."))
  else Ok int_value.

(** [(data.get("payoff") or "").strip()]: a truthy value that is not a
    string has no [strip] *)
Definition payoff_text (v : option json) : Result string :=
  let operand := match v with
                 | Some j => if json_truthy j then j else JStr ""
                 | None => JStr ""
                 end in
  match operand with
  | JStr s => Ok (py_strip s)
  | _ => Err (AttributeError "strip")
  end.

(** the [params] dict *)
Record Params : Type := {
  spot : R;
  maturity : R;
  rate : R;
  volatility : R;
  steps : Z;
  paths : Z
}.

Definition _parse_inputs (data : list (string * json)) : Result (Params * string) :=
  payoff_expression <- payoff_text (json_get data "payoff") ;;
  if String.eqb payoff_expression "" then Err (ValueError "payoff expression is required.") else
  spot <- as_float data "spot" ;;
  maturity <- as_float data "maturity" ;;
  rate <- as_float data "rate" ;;
  volatility <- as_float data "volatility" ;;
  steps <- as_int data "steps" ;;
  paths <- as_int data "paths" ;;
  Ok ({| spot := spot; maturity := maturity; rate := rate; volatility := volatility;
         steps := steps; paths := paths |}, payoff_expression).

(** the dict returned by [_format_result]; its keys are [price],
    [sample_payoffs], [sample_paths], [path_count] and [steps] *)
Record Formatted : Type := {
  formatted_price : R;
  sample_payoffs : list R;
  sample_paths : list (list R);
  path_count : nat;
  formatted_steps : Z
}.

Definition _format_result (result : MonteCarloOption.MonteCarloResult) : Formatted :=
  let sample_paths := firstn 3 (MonteCarloOption.paths result) in
  let sample_payoffs := firstn 5 (MonteCarloOption.payoffs result) in
  {| formatted_price := MonteCarloOption.price result;
     sample_payoffs := sample_payoffs;
     sample_paths := sample_paths;
     path_count := List.length (MonteCarloOption.paths result);
     formatted_steps :=
       match MonteCarloOption.paths result with
       | first :: _ => (Z.of_nat (List.length first) - 1)%Z
       | [] => 0%Z
       end |}.

(** The response of [api_price]: [jsonify(...)] with status 200, or the
    error body with status 400. *)
Inductive response : Type :=
| Json200 (body : Formatted)
| Json400 (error : string).

(** the body of the [try] block of [api_price]; [draws] are the values
    [gauss(0, 1)] returns *)
Definition api_price_body (payload : json) (draws : nat -> R) : Result Formatted :=
  data <- match payload with
          | JObject fields => Ok fields
          | _ => Err (ValueError "JSON body must be an object.")
          end ;;
  parsed <- _parse_inputs data ;;
  let '(params, payoff_expression) := parsed in
  payoff_fn <- PayoffExpression.payoff_from_expression payoff_expression ;;
  result <- MonteCarloOption.monte_carlo_option_price (spot params) (maturity params)
              (rate params) (volatility params) (steps params) (paths params) payoff_fn draws ;;
  Ok (_format_result result).

(** [except ValueError]: status 400 with the message; any other exception
    leaves the handler *)
Definition api_price (payload : json) (draws : nat -> R) : Result response :=
  match api_price_body payload draws with
  | Ok body => Ok (Json200 body)
  | Err (ValueError msg) => Ok (Json400 msg)
  | Err e => Err e
  end.

End WebOptionServer.

(** * Proofs *)

(** ** Facts about the list primitives *)

Lemma py_range_length (n : Z) : List.length (py_range n) = Z.to_nat n.
Proof. unfold py_range. now rewrite length_map, length_seq. Qed.

Lemma py_range_succ (k : nat) :
  py_range (Z.of_nat (S k)) = py_range (Z.of_nat k) ++ [Z.of_nat k].
Proof.
  unfold py_range. rewrite !Nat2Z.id, seq_S, map_app. reflexivity.
Qed.

Lemma py_norm_index_nat (len i : nat) :
  (i < len)%nat -> py_norm_index len (Z.of_nat i) = Some i.
Proof.
  intros H. unfold py_norm_index.
  replace (Z.of_nat i <? 0)%Z with false by (symmetry; apply Z.ltb_ge; lia).
  replace (0 <=? Z.of_nat i)%Z with true by (symmetry; apply Z.leb_le; lia).
  replace (Z.of_nat i <? Z.of_nat len)%Z with true by (symmetry; apply Z.ltb_lt; lia).
  simpl. now rewrite Nat2Z.id.
Qed.

Lemma py_norm_index_last (len : nat) :
  (0 < len)%nat -> py_norm_index len (-1) = Some (len - 1)%nat.
Proof.
  intros H. unfold py_norm_index.
  replace (-1 <? 0)%Z with true by reflexivity.
  replace (0 <=? -1 + Z.of_nat len)%Z with true by (symmetry; apply Z.leb_le; lia).
  replace (-1 + Z.of_nat len <? Z.of_nat len)%Z with true by (symmetry; apply Z.ltb_lt; lia).
  cbn [andb]. f_equal.
  replace (-1 + Z.of_nat len)%Z with (Z.of_nat (len - 1)) by lia.
  apply Nat2Z.id.
Qed.

Lemma py_getitem_nat {A : Type} (l : list A) (i : nat) (d : A) :
  (i < List.length l)%nat -> py_getitem l (Z.of_nat i) = Ok (nth i l d).
Proof.
  intros H. unfold py_getitem. rewrite py_norm_index_nat by exact H.
  now rewrite (nth_error_nth' l d H).
Qed.

Lemma py_getitem_last {A : Type} (l : list A) (d : A) :
  (0 < List.length l)%nat -> py_getitem l (-1) = Ok (nth (List.length l - 1) l d).
Proof.
  intros H. unfold py_getitem. rewrite py_norm_index_last by exact H.
  rewrite (nth_error_nth' l d) by lia. reflexivity.
Qed.

Lemma replace_nth_length {A : Type} (l : list A) (n : nat) (v : A) :
  List.length (replace_nth l n v) = List.length l.
Proof. revert n; induction l as [|x t IH]; intros [|n]; simpl; auto. Qed.

Lemma nth_replace_nth_same {A : Type} (l : list A) (n : nat) (v d : A) :
  (n < List.length l)%nat -> nth n (replace_nth l n v) d = v.
Proof.
  revert n; induction l as [|x t IH]; intros [|n] H; simpl in *; try lia; auto.
  apply IH. lia.
Qed.

Lemma nth_replace_nth_other {A : Type} (l : list A) (n m : nat) (v d : A) :
  m <> n -> nth m (replace_nth l n v) d = nth m l d.
Proof.
  revert n m; induction l as [|x t IH]; intros [|n] [|m] H; simpl; auto; try lia.
Qed.

Lemma py_setitem_nat {A : Type} (l : list A) (i : nat) (v : A) :
  (i < List.length l)%nat -> py_setitem l (Z.of_nat i) v = Ok (replace_nth l i v).
Proof. intros H. unfold py_setitem. now rewrite py_norm_index_nat. Qed.

Lemma py_setitem_last {A : Type} (l : list A) (v : A) :
  (0 < List.length l)%nat -> py_setitem l (-1) v = Ok (replace_nth l (List.length l - 1) v).
Proof. intros H. unfold py_setitem. now rewrite py_norm_index_last. Qed.

Lemma map_result_seq {B : Type} (f : Z -> Result B) (g : nat -> B) (n start : nat) :
  (forall j, (start <= j < start + n)%nat -> f (Z.of_nat j) = Ok (g j)) ->
  map_result f (map Z.of_nat (seq start n)) = Ok (map g (seq start n)).
Proof.
  revert start. induction n as [|n IH]; intros start H; [reflexivity|].
  simpl. rewrite (H start ltac:(lia)). simpl.
  rewrite IH; [reflexivity|]. intros j Hj. apply H. lia.
Qed.

Lemma map_result_range {B : Type} (f : Z -> Result B) (g : nat -> B) (n : nat) :
  (forall j, (j < n)%nat -> f (Z.of_nat j) = Ok (g j)) ->
  map_result f (py_range (Z.of_nat n)) = Ok (map g (seq 0 n)).
Proof.
  intros H. unfold py_range. rewrite Nat2Z.id.
  apply map_result_seq. intros j Hj. apply H. lia.
Qed.


Lemma py_div_ok (a b : R) : b <> 0 -> py_div a b = Ok (a / b).
Proof. intros H. unfold py_div. now destruct (Req_EM_T b 0). Qed.

Lemma py_div_zero (a : R) : py_div a 0 = Err ZeroDivisionError.
Proof. unfold py_div. now destruct (Req_EM_T 0 0). Qed.

Lemma math_sqrt_ok (x : R) : 0 <= x -> math_sqrt x = Ok (sqrt x).
Proof. intros H. unfold math_sqrt. destruct (Rlt_dec x 0); [lra | reflexivity]. Qed.

Lemma py_max_Rmax (a b : R) : py_max a b = Rmax a b.
Proof.
  unfold py_max, Rmax. destruct (Rlt_dec a b), (Rle_dec a b); lra.
Qed.

Lemma nth_map_seq {B : Type} (f : nat -> B) (len j : nat) (d : B) :
  (j < len)%nat -> nth j (map f (seq 0 len)) d = f j.
Proof.
  intros H. rewrite (nth_indep _ d (f 0%nat)) by (rewrite length_map, length_seq; lia).
  rewrite map_nth, seq_nth by lia. reflexivity.
Qed.

(** ** The binomial lattice *)

Module BinomialProofs.
Import BinomialOption.

Lemma validate_parameters_ok spot strike maturity rate volatility steps :
  _validate_parameters spot strike maturity rate volatility steps = Ok tt <->
  0 < spot /\ 0 < strike /\ 0 < maturity /\ (0 < steps)%Z /\ 0 <= volatility.
Proof.
  unfold _validate_parameters.
  destruct (Rle_dec spot 0); [split; [discriminate | intros (?&?&?&?&?); lra]|].
  destruct (Rle_dec strike 0); [split; [discriminate | intros (?&?&?&?&?); lra]|].
  destruct (Rle_dec maturity 0); [split; [discriminate | intros (?&?&?&?&?); lra]|].
  destruct (steps <=? 0)%Z eqn:Hs.
  { apply Z.leb_le in Hs. split; [discriminate | intros (?&?&?&?&?); lia]. }
  apply Z.leb_gt in Hs.
  destruct (Rlt_dec volatility 0); [split; [discriminate | intros (?&?&?&?&?); lra]|].
  split; [intros _; repeat split; first [lra | lia] | reflexivity].
Qed.

Lemma lattice_level_length spot up down (s : nat) :
  List.length (lattice_level spot up down (Z.of_nat s)) = S s.
Proof.
  unfold lattice_level. rewrite length_map, py_range_length.
  replace (Z.of_nat s + 1)%Z with (Z.of_nat (S s)) by lia. apply Nat2Z.id.
Qed.

Lemma lattice_level_nth spot up down (s j : nat) :
  (j <= s)%nat ->
  nth j (lattice_level spot up down (Z.of_nat s)) 0 = spot * up ^ j * down ^ (s - j).
Proof.
  intros H. unfold lattice_level, py_range.
  replace (Z.of_nat s + 1)%Z with (Z.of_nat (S s)) by lia.
  rewrite Nat2Z.id, map_map, nth_map_seq by lia.
  rewrite !pow_powerRZ. f_equal. f_equal. f_equal. lia.
Qed.

Lemma build_asset_prices_length spot up down (n : nat) :
  List.length (build_asset_prices spot up down (Z.of_nat n)) = S n.
Proof.
  unfold build_asset_prices. rewrite length_map, py_range_length.
  replace (Z.of_nat n + 1)%Z with (Z.of_nat (S n)) by lia. apply Nat2Z.id.
Qed.

Lemma build_asset_prices_nth spot up down (n s : nat) :
  (s <= n)%nat ->
  nth s (build_asset_prices spot up down (Z.of_nat n)) [] = lattice_level spot up down (Z.of_nat s).
Proof.
  intros H. unfold build_asset_prices, py_range.
  replace (Z.of_nat n + 1)%Z with (Z.of_nat (S n)) by lia.
  rewrite Nat2Z.id, map_map, nth_map_seq by lia. reflexivity.
Qed.

Section BackwardFacts.

Variables (strike discount probability : R) (option_type : string)
  (american : bool) (asset_prices : list (list R)) (n : nat).

Hypothesis asset_prices_length : List.length asset_prices = S n.
Hypothesis asset_prices_width :
  forall s, (s <= n)%nat -> List.length (nth s asset_prices []) = S s.

Let formula := node_formula strike discount probability option_type american asset_prices.
Let inv := lattice_invariant strike discount probability option_type american asset_prices n.

Lemma node_formula_replace (ov : list (list R)) (m s j : nat) (v : list R) :
  m <> S s -> formula (replace_nth ov m v) s j = formula ov s j.
Proof.
  intros H. unfold formula, node_formula. rewrite nth_replace_nth_other by lia. reflexivity.
Qed.

Lemma node_value_ok (ov : list (list R)) (s j : nat) :
  List.length ov = S n -> (s < n)%nat ->
  List.length (nth (S s) ov []) = S (S s) -> (j <= s)%nat ->
  node_value strike discount probability option_type american asset_prices ov
    (Z.of_nat s) (Z.of_nat j) = Ok (formula ov s j).
Proof.
  intros Hl Hs Hw Hj. unfold node_value.
  replace (Z.of_nat s + 1)%Z with (Z.of_nat (S s)) by lia.
  rewrite (py_getitem_nat ov (S s) []) by lia. cbn [bind].
  replace (Z.of_nat j + 1)%Z with (Z.of_nat (S j)) by lia.
  rewrite (py_getitem_nat _ (S j) 0) by lia. cbn [bind].
  rewrite (py_getitem_nat _ j 0) by lia. cbn [bind].
  unfold formula, node_formula. destruct american; [|reflexivity].
  rewrite (py_getitem_nat asset_prices s []) by lia. cbn [bind].
  rewrite (py_getitem_nat _ j 0) by (rewrite asset_prices_width; lia).
  reflexivity.
Qed.

Lemma backward_induction_ok (k : nat) (ov : list (list R)) :
  (k <= n)%nat -> inv k ov ->
  exists ov', backward_induction strike discount probability option_type american
                asset_prices (rev (py_range (Z.of_nat k))) ov = Ok ov' /\ inv 0 ov'.
Proof.
  revert ov. induction k as [|k IH]; intros ov Hk Hinv.
  { exists ov. split; [reflexivity | exact Hinv]. }
  destruct Hinv as (Hlen & Hwidth & Hform).
  rewrite py_range_succ, rev_app_distr. cbn [rev app backward_induction].
  replace (Z.of_nat k + 1)%Z with (Z.of_nat (S k)) by lia.
  rewrite (map_result_range _ (formula ov k) (S k)).
  2:{ intros j Hj. apply node_value_ok; try lia. apply Hwidth. lia. }
  cbn [bind]. rewrite py_setitem_nat by lia. cbn [bind].
  apply IH; [lia|].
  set (cur := map (formula ov k) (seq 0 (S k))).
  split; [|split].
  - rewrite replace_nth_length. exact Hlen.
  - intros s Hs. destruct (Nat.eq_dec s k) as [->|Hne].
    + rewrite nth_replace_nth_same by lia. unfold cur. now rewrite length_map, length_seq.
    + rewrite nth_replace_nth_other by exact Hne. apply Hwidth. lia.
  - intros s j Hs Hj. rewrite node_formula_replace by lia.
    destruct (Nat.eq_dec s k) as [->|Hne].
    + rewrite nth_replace_nth_same by lia. unfold cur. apply nth_map_seq. lia.
    + rewrite nth_replace_nth_other by exact Hne. apply Hform; lia.
Qed.

End BackwardFacts.

Lemma initial_invariant strike discount probability option_type american asset_prices
    (n : nat) (terminal : list R) :
  List.length terminal = S n ->
  lattice_invariant strike discount probability option_type american asset_prices n n
    (replace_nth (repeat [] (S n)) (S n - 1) terminal).
Proof.
  intros Ht. split; [|split].
  - rewrite replace_nth_length, repeat_length. reflexivity.
  - intros s Hs. replace s with n by lia. replace (S n - 1)%nat with n by lia.
    rewrite nth_replace_nth_same by (rewrite repeat_length; lia). exact Ht.
  - intros s j Hs. lia.
Qed.

(** A run that passes every check builds the lattice [build_asset_prices]
    and an [option_values] satisfying [lattice_invariant] down to level 0. *)
Lemma binomial_success spot strike maturity rate volatility (n : nat) option_type
    american dividend :
  (0 < n)%nat -> 0 < spot -> 0 < strike -> 0 < maturity -> 0 <= volatility ->
  (option_type = "call"%string \/ option_type = "put"%string) ->
  crr_up maturity volatility (Z.of_nat n) - crr_down maturity volatility (Z.of_nat n) <> 0 ->
  0 <= crr_probability maturity rate volatility (Z.of_nat n) dividend <= 1 ->
  exists ov,
    lattice_invariant strike (crr_discount maturity rate (Z.of_nat n))
      (crr_probability maturity rate volatility (Z.of_nat n) dividend) option_type american
      (build_asset_prices spot (crr_up maturity volatility (Z.of_nat n))
         (crr_down maturity volatility (Z.of_nat n)) (Z.of_nat n)) n 0 ov /\
    binomial_option_price spot strike maturity rate volatility (Z.of_nat n) option_type
      american dividend =
    Ok {| price := nth 0 (nth 0 ov []) 0;
          asset_prices := build_asset_prices spot (crr_up maturity volatility (Z.of_nat n))
                            (crr_down maturity volatility (Z.of_nat n)) (Z.of_nat n);
          option_values := ov |}.
Proof.
  intros Hn Hspot Hstrike Hmat Hvol Htype Hud Hp.
  set (asset := build_asset_prices spot (crr_up maturity volatility (Z.of_nat n))
                  (crr_down maturity volatility (Z.of_nat n)) (Z.of_nat n)).
  assert (Hsteps : 0 < IZR (Z.of_nat n)) by (apply IZR_lt; lia).
  assert (Hdt : 0 < maturity / IZR (Z.of_nat n)) by (apply Rdiv_lt_0_compat; lra).
  assert (Hasset_len : List.length asset = S n) by apply build_asset_prices_length.
  assert (Hasset_w : forall s, (s <= n)%nat -> List.length (nth s asset []) = S s).
  { intros s Hs. unfold asset. rewrite build_asset_prices_nth by exact Hs.
    apply lattice_level_length. }
  assert (Hterm : List.length (map (exercise_value option_type strike)
                                 (nth (List.length asset - 1) asset [])) = S n).
  { rewrite length_map, Hasset_len. replace (S n - 1)%nat with n by lia. apply Hasset_w. lia. }
  rewrite Hasset_len in Hterm.
  pose proof (initial_invariant strike (crr_discount maturity rate (Z.of_nat n))
                (crr_probability maturity rate volatility (Z.of_nat n) dividend) option_type
                american asset n _ Hterm) as Hinit.
  destruct (backward_induction_ok _ _ _ _ _ _ n Hasset_len Hasset_w n _ (le_n n) Hinit)
    as (ov & Hrun & Hinv).
  exists ov. split; [exact Hinv|].
  unfold binomial_option_price.
  rewrite (proj2 (validate_parameters_ok spot strike maturity rate volatility (Z.of_nat n)))
    by (repeat split; first [lra | lia]).
  cbn [bind].
  assert (Ht : (String.eqb option_type "call" || String.eqb option_type "put")%bool = true)
    by (destruct Htype as [-> | ->]; reflexivity).
  rewrite Ht. cbn [negb].
  rewrite py_div_ok by lra. cbn [bind].
  rewrite math_sqrt_ok by lra. cbn [bind]. cbv zeta.
  rewrite py_div_ok by (apply Rgt_not_eq, exp_pos). cbn [bind].
  unfold crr_probability, crr_down, crr_up, crr_dt in Hud, Hp, Hrun.
  rewrite py_div_ok by exact Hud. cbn [bind].
  destruct (Rle_dec 0 _) as [_|?]; [|lra].
  destruct (Rle_dec _ 1) as [_|?]; [|lra].
  cbn [negb].
  change (build_asset_prices spot _ _ (Z.of_nat n)) with asset.
  rewrite (py_getitem_last asset []) by lia. cbn [bind].
  replace (Z.of_nat n + 1)%Z with (Z.of_nat (S n)) by lia. rewrite Nat2Z.id.
  rewrite py_setitem_last by (rewrite repeat_length; lia). cbn [bind].
  rewrite repeat_length, Hasset_len.
  unfold range_down. unfold crr_discount, crr_dt in Hrun. rewrite Hrun. cbn [bind].
  destruct Hinv as (Hlen & Hwidth & _).
  change 0%Z with (Z.of_nat 0).
  rewrite (py_getitem_nat ov 0 []) by lia. cbn [bind].
  rewrite (py_getitem_nat _ 0 0) by (rewrite Hwidth; lia). reflexivity.
Qed.

(** A successful run passed every check of the code. *)
Lemma binomial_ok_conditions spot strike maturity rate volatility steps option_type
    american dividend res :
  binomial_option_price spot strike maturity rate volatility steps option_type american
    dividend = Ok res ->
  0 < spot /\ 0 < strike /\ 0 < maturity /\ (0 < steps)%Z /\ 0 <= volatility /\
  (option_type = "call"%string \/ option_type = "put"%string) /\
  crr_up maturity volatility steps - crr_down maturity volatility steps <> 0 /\
  0 <= crr_probability maturity rate volatility steps dividend <= 1.
Proof.
  intros H. unfold binomial_option_price in H.
  destruct (_validate_parameters spot strike maturity rate volatility steps) as [[]|e] eqn:Hv;
    [|discriminate H].
  apply validate_parameters_ok in Hv. destruct Hv as (Hspot & Hstrike & Hmat & Hsteps & Hvol).
  cbn [bind] in H.
  destruct ((String.eqb option_type "call" || String.eqb option_type "put")%bool) eqn:Ht;
    cbn [negb] in H; [|discriminate H].
  assert (Htype : option_type = "call"%string \/ option_type = "put"%string).
  { apply orb_true_iff in Ht. destruct Ht as [Ht|Ht]; apply String.eqb_eq in Ht; auto. }
  assert (HZ : 0 < IZR steps) by (apply IZR_lt; lia).
  assert (Hdt : 0 < maturity / IZR steps) by (apply Rdiv_lt_0_compat; lra).
  rewrite py_div_ok in H by lra. cbn [bind] in H.
  rewrite math_sqrt_ok in H by lra. cbn [bind] in H. cbv zeta in H.
  rewrite py_div_ok in H by (apply Rgt_not_eq, exp_pos). cbn [bind] in H.
  unfold crr_probability, crr_down, crr_up, crr_dt.
  destruct (Req_EM_T (exp (volatility * sqrt (maturity / IZR steps))
                      - 1 / exp (volatility * sqrt (maturity / IZR steps))) 0) as [Hz|Hnz].
  { rewrite Hz, py_div_zero in H. discriminate H. }
  rewrite py_div_ok in H by exact Hnz. cbn [bind] in H.
  revert H.
  destruct (Rle_dec 0 _) as [H0|H0]; [|discriminate].
  destruct (Rle_dec _ 1) as [H1|H1]; [|discriminate].
  intros _. repeat split; auto.
Qed.

(** The steps of the code before the arbitrage check, once validation and
    the option-type check have passed. *)
Ltac run_binomial_prefix :=
  match goal with
  | Hv : _validate_parameters _ _ _ _ _ _ = Ok tt,
    Htype : ?option_type = "call"%string \/ ?option_type = "put"%string |- _ =>
      let Hok := fresh "Hok" in
      pose proof (proj1 (validate_parameters_ok _ _ _ _ _ _) Hv) as Hok;
      destruct Hok as (? & ? & ? & ? & ?);
      unfold binomial_option_price; rewrite Hv; cbn [bind];
      replace ((String.eqb option_type "call" || String.eqb option_type "put")%bool)
        with true by (destruct Htype as [-> | ->]; reflexivity);
      cbn [negb];
      rewrite py_div_ok by (apply Rgt_not_eq, IZR_lt; lia); cbn [bind];
      rewrite math_sqrt_ok by (left; apply Rdiv_lt_0_compat; [lra | apply IZR_lt; lia]);
      cbn [bind]; cbv zeta;
      rewrite py_div_ok by (apply Rgt_not_eq, exp_pos); cbn [bind]
  end.

Lemma binomial_zero_division spot strike maturity rate volatility steps option_type
    american dividend :
  _validate_parameters spot strike maturity rate volatility steps = Ok tt ->
  (option_type = "call"%string \/ option_type = "put"%string) ->
  crr_up maturity volatility steps - crr_down maturity volatility steps = 0 ->
  binomial_option_price spot strike maturity rate volatility steps option_type american
    dividend = Err ZeroDivisionError.
Proof.
  intros Hv Htype Hz. run_binomial_prefix.
  unfold crr_down, crr_up, crr_dt in Hz. rewrite Hz, py_div_zero. reflexivity.
Qed.

Lemma binomial_arbitrage spot strike maturity rate volatility steps option_type
    american dividend :
  _validate_parameters spot strike maturity rate volatility steps = Ok tt ->
  (option_type = "call"%string \/ option_type = "put"%string) ->
  crr_up maturity volatility steps - crr_down maturity volatility steps <> 0 ->
  ~ (0 <= crr_probability maturity rate volatility steps dividend <= 1) ->
  binomial_option_price spot strike maturity rate volatility steps option_type american
    dividend = Err (ValueError arbitrage_message).
Proof.
  intros Hv Htype Hnz Hp. run_binomial_prefix.
  unfold crr_probability, crr_down, crr_up, crr_dt in Hnz, Hp.
  rewrite py_div_ok by exact Hnz. cbn [bind].
  destruct (Rle_dec 0 _) as [Hlo|Hlo]; [|reflexivity].
  destruct (Rle_dec _ 1) as [Hhi|Hhi]; [|reflexivity].
  exfalso. apply Hp. split; assumption.
Qed.

(** The number of steps as a [nat]. *)
Lemma steps_of_nat (steps : Z) : (0 < steps)%Z -> steps = Z.of_nat (Z.to_nat steps).
Proof. intros H. rewrite Z2Nat.id; lia. Qed.

(** With [rate = dividend = 0] and positive volatility, [up > 1], the
    growth factor is 1 and [probability] lies in [[0, 1]]. *)
Lemma crr_no_carry maturity volatility steps :
  0 < volatility -> 0 < maturity -> (0 < steps)%Z ->
  crr_up maturity volatility steps - crr_down maturity volatility steps <> 0 /\
  0 <= crr_probability maturity 0 volatility steps 0 <= 1.
Proof.
  intros Hvol Hmat Hsteps.
  assert (Hdt : 0 < crr_dt maturity steps)
    by (unfold crr_dt; apply Rdiv_lt_0_compat; [lra | apply IZR_lt; lia]).
  assert (Hx : 0 < volatility * sqrt (crr_dt maturity steps))
    by (apply Rmult_lt_0_compat; [lra | apply sqrt_lt_R0; lra]).
  unfold crr_probability, crr_down, crr_up.
  set (u := exp (volatility * sqrt (crr_dt maturity steps))).
  assert (Hu : 1 < u) by (pose proof (exp_ineq1 _ (Rgt_not_eq _ _ Hx)); unfold u; lra).
  assert (Hdu : 1 / u * u = 1) by (field; lra).
  assert (Hd0 : 0 < 1 / u) by (apply Rdiv_lt_0_compat; lra).
  assert (Hd1 : 1 / u < 1) by nra.
  replace ((0 - 0) * crr_dt maturity steps) with 0 by ring. rewrite exp_0.
  set (d := 1 / u) in *.
  split; [lra|].
  assert (Hi : (u - d) * / (u - d) = 1) by (field; lra).
  assert (Hipos : 0 < / (u - d)) by (apply Rinv_0_lt_compat; lra).
  unfold Rdiv. split; nra.
Qed.

(** A concrete run that passes every check. *)
Lemma binomial_runs :
  exists res, binomial_option_price 100 100 1 0 (2 / 10) 2 "call" false 0 = Ok res.
Proof.
  destruct (crr_no_carry 1 (2 / 10) 2 ltac:(lra) ltac:(lra) ltac:(lia)) as (Hud & Hp).
  destruct (binomial_success 100 100 1 0 (2 / 10) 2 "call" false 0 ltac:(lia) ltac:(lra)
              ltac:(lra) ltac:(lra) ltac:(lra) (or_introl eq_refl) Hud Hp) as (ov & _ & Hrun).
  eexists. exact Hrun.
Qed.

(** ** Claims about binomial_option_price *)

(** C3: in the result of a successful run, [option_values] has one level
    per step; for every step [s] from [steps - 1] down to [0] and every node
    [j <= s], the node holds
    [discount * (probability * V[s+1][j+1] + (1 - probability) * V[s+1][j])],
    or, for an American option, the maximum of that continuation value and
    the intrinsic value at [asset_prices[s][j]]; the price is [V[0][0]]. *)
Theorem backward_induction_values spot strike maturity rate volatility steps option_type
    american dividend res :
  binomial_option_price spot strike maturity rate volatility steps option_type american
    dividend = Ok res ->
  let dt := maturity / IZR steps in
  let up := exp (volatility * sqrt dt) in
  let down := 1 / up in
  let probability := (exp ((rate - dividend) * dt) - down) / (up - down) in
  let discount := exp (- rate * dt) in
  let V (s j : nat) := nth j (nth s (option_values res) []) 0 in
  let intrinsic (x : R) :=
    if String.eqb option_type "call" then Rmax (x - strike) 0 else Rmax (strike - x) 0 in
  List.length (option_values res) = S (Z.to_nat steps) /\
  (forall s, (s <= Z.to_nat steps)%nat -> List.length (nth s (option_values res) []) = S s) /\
  (forall s j, (s < Z.to_nat steps)%nat -> (j <= s)%nat ->
     let continuation :=
       discount * (probability * V (S s) (S j) + (1 - probability) * V (S s) j) in
     V s j = if american
             then Rmax continuation (intrinsic (nth j (nth s (asset_prices res) []) 0))
             else continuation) /\
  price res = V 0%nat 0%nat.
Proof.
  intros H. pose proof (binomial_ok_conditions _ _ _ _ _ _ _ _ _ _ H)
    as (Hspot & Hstrike & Hmat & Hsteps & Hvol & Htype & Hud & Hp).
  remember (Z.to_nat steps) as n eqn:Hn.
  assert (Hsn : steps = Z.of_nat n) by (subst n; apply steps_of_nat; exact Hsteps).
  subst steps. clear Hn.
  destruct (binomial_success spot strike maturity rate volatility n option_type american
              dividend ltac:(lia) Hspot Hstrike Hmat Hvol Htype Hud Hp) as (ov & Hinv & Hrun).
  rewrite Hrun in H. injection H as <-.
  destruct Hinv as (Hlen & Hwidth & Hform).
  intros dt up down probability discount V intrinsic. cbn [option_values price asset_prices].
  split; [exact Hlen|]. split; [intros s Hs; apply Hwidth; lia|]. split; [|reflexivity].
  intros s j Hs Hj. unfold V, intrinsic; cbn [option_values asset_prices].
  rewrite (Hform s j) by lia. unfold node_formula, exercise_value.
  rewrite !py_max_Rmax. reflexivity.
Qed.

(** C4: once validation and the option-type check have passed, the call
    fails with the arbitrage error exactly when [up - down] is non-zero (so
    [probability] is computed) and [probability] lies outside [[0, 1]]; the
    error is returned instead of any lattice. *)
Theorem arbitrage_exactly spot strike maturity rate volatility steps option_type american
    dividend :
  _validate_parameters spot strike maturity rate volatility steps = Ok tt ->
  (option_type = "call"%string \/ option_type = "put"%string) ->
  let dt := maturity / IZR steps in
  let up := exp (volatility * sqrt dt) in
  let down := 1 / up in
  let probability := (exp ((rate - dividend) * dt) - down) / (up - down) in
  binomial_option_price spot strike maturity rate volatility steps option_type american
    dividend = Err (ValueError arbitrage_message) <->
  up - down <> 0 /\ ~ (0 <= probability <= 1).
Proof.
  intros Hv Htype dt up down probability. split.
  - intros H.
    destruct (Req_EM_T (up - down) 0) as [Hz|Hnz].
    { rewrite binomial_zero_division in H; [discriminate H | exact Hv | exact Htype | exact Hz]. }
    split; [exact Hnz|]. intros Hp.
    pose proof (proj1 (validate_parameters_ok _ _ _ _ _ _) Hv)
      as (Hspot & Hstrike & Hmat & Hsteps & Hvol).
    pose proof (steps_of_nat steps Hsteps) as Hsn.
    revert H Hnz Hp. unfold probability, down, up, dt. rewrite Hsn. intros H Hnz Hp.
    destruct (binomial_success spot strike maturity rate volatility (Z.to_nat steps)
                option_type american dividend ltac:(lia) Hspot Hstrike Hmat Hvol Htype Hnz Hp)
      as (ov & _ & Hrun).
    rewrite Hrun in H. discriminate H.
  - intros (Hnz & Hp). apply binomial_arbitrage; assumption.
Qed.

(** C5: in the result of a successful run, [asset_prices] has a level for
    every step [0 .. steps], level [s] has [s + 1] entries, entry [j] of
    level [s] is [spot * up ^ j * down ^ (s - j)], and level 0 is [[spot]]. *)
Theorem asset_prices_shape spot strike maturity rate volatility steps option_type american
    dividend res :
  binomial_option_price spot strike maturity rate volatility steps option_type american
    dividend = Ok res ->
  let dt := maturity / IZR steps in
  let up := exp (volatility * sqrt dt) in
  let down := 1 / up in
  List.length (asset_prices res) = S (Z.to_nat steps) /\
  nth 0 (asset_prices res) [] = [spot] /\
  (forall s, (s <= Z.to_nat steps)%nat ->
     List.length (nth s (asset_prices res) []) = S s /\
     forall j, (j <= s)%nat ->
       nth j (nth s (asset_prices res) []) 0 = spot * up ^ j * down ^ (s - j)).
Proof.
  intros H. pose proof (binomial_ok_conditions _ _ _ _ _ _ _ _ _ _ H)
    as (Hspot & Hstrike & Hmat & Hsteps & Hvol & Htype & Hud & Hp).
  remember (Z.to_nat steps) as n eqn:Hn.
  assert (Hsn : steps = Z.of_nat n) by (subst n; apply steps_of_nat; exact Hsteps).
  subst steps. clear Hn.
  destruct (binomial_success spot strike maturity rate volatility n option_type american
              dividend ltac:(lia) Hspot Hstrike Hmat Hvol Htype Hud Hp) as (ov & _ & Hrun).
  rewrite Hrun in H. injection H as <-.
  intros dt up down. cbn [asset_prices].
  split; [apply build_asset_prices_length|]. split.
  - rewrite build_asset_prices_nth by lia. change (Z.of_nat 0) with 0%Z.
    unfold lattice_level. change (py_range (0 + 1)) with [0%Z]. cbn [map].
    rewrite Z.sub_diag, !powerRZ_O, !Rmult_1_r. reflexivity.
  - intros s Hs. rewrite build_asset_prices_nth by exact Hs.
    split; [apply lattice_level_length|].
    intros j Hj. rewrite lattice_level_nth by exact Hj. reflexivity.
Qed.

(** C10: zero volatility passes validation, yet the call then divides by
    [up - down = 0] and raises [ZeroDivisionError] before the arbitrage
    check. *)
Theorem zero_volatility_division spot strike maturity rate steps option_type american
    dividend :
  0 < spot -> 0 < strike -> 0 < maturity -> (0 < steps)%Z ->
  (option_type = "call"%string \/ option_type = "put"%string) ->
  _validate_parameters spot strike maturity rate 0 steps = Ok tt /\
  binomial_option_price spot strike maturity rate 0 steps option_type american dividend
    = Err ZeroDivisionError.
Proof.
  intros Hspot Hstrike Hmat Hsteps Htype.
  assert (Hv : _validate_parameters spot strike maturity rate 0 steps = Ok tt)
    by (apply validate_parameters_ok; repeat split; first [lra | lia]).
  split; [exact Hv|].
  apply binomial_zero_division; [exact Hv | exact Htype|].
  unfold crr_down, crr_up. rewrite Rmult_0_l, exp_0. field.
Qed.

Lemma zero_volatility_division_witness :
  (0 < 100 /\ 0 < 100 /\ 0 < 1 /\ (0 < 10)%Z /\
   ("call"%string = "call"%string \/ "call"%string = "put"%string)) /\
  _validate_parameters 100 100 1 (5 / 100) 0 10 = Ok tt /\
  binomial_option_price 100 100 1 (5 / 100) 0 10 "call" false 0 = Err ZeroDivisionError.
Proof.
  split; [repeat split; first [lra | lia | left; reflexivity] |].
  apply (zero_volatility_division 100 100 1 (5 / 100) 10 "call" false 0); try lra; try lia.
  left; reflexivity.
Defined.

Lemma arbitrage_exactly_witness :
  (_validate_parameters 100 100 1 (5 / 100) (2 / 10) 10 = Ok tt /\
   ("call"%string = "call"%string \/ "call"%string = "put"%string)) /\
  (binomial_option_price 100 100 1 (5 / 100) (2 / 10) 10 "call" false 0
     = Err (ValueError arbitrage_message) <->
   crr_up 1 (2 / 10) 10 - crr_down 1 (2 / 10) 10 <> 0 /\
   ~ (0 <= crr_probability 1 (5 / 100) (2 / 10) 10 0 <= 1)).
Proof.
  assert (Hv : _validate_parameters 100 100 1 (5 / 100) (2 / 10) 10 = Ok tt)
    by (apply validate_parameters_ok; repeat split; first [lra | lia]).
  assert (Ht : "call"%string = "call"%string \/ "call"%string = "put"%string)
    by (left; reflexivity).
  split; [split; [exact Hv | exact Ht]|].
  exact (arbitrage_exactly 100 100 1 (5 / 100) (2 / 10) 10 "call" false 0 Hv Ht).
Defined.

Lemma backward_induction_values_witness :
  exists res,
    binomial_option_price 100 100 1 0 (2 / 10) 2 "call" false 0 = Ok res /\
    List.length (option_values res) = S (Z.to_nat 2) /\
    price res = nth 0 (nth 0 (option_values res) []) 0.
Proof.
  destruct binomial_runs as (res & Hres).
  exists res. split; [exact Hres|].
  destruct (backward_induction_values 100 100 1 0 (2 / 10) 2 "call" false 0 res Hres)
    as (Hlen & _ & _ & Hprice).
  split; [exact Hlen | exact Hprice].
Defined.

Lemma asset_prices_shape_witness :
  exists res,
    binomial_option_price 100 100 1 0 (2 / 10) 2 "call" false 0 = Ok res /\
    List.length (asset_prices res) = S (Z.to_nat 2) /\
    nth 0 (asset_prices res) [] = [100].
Proof.
  destruct binomial_runs as (res & Hres).
  exists res. split; [exact Hres|].
  destruct (asset_prices_shape 100 100 1 0 (2 / 10) 2 "call" false 0 res Hres)
    as (Hlen & H0 & _).
  split; [exact Hlen | exact H0].
Defined.

End BinomialProofs.

(** ** The Monte Carlo pricer *)

Module MonteCarloProofs.
Import MonteCarloOption.

Lemma validate_inputs_ok spot maturity rate volatility steps paths :
  _validate_inputs spot maturity rate volatility steps paths = Ok tt <->
  0 < spot /\ 0 < maturity /\ (0 < steps)%Z /\ (0 < paths)%Z /\ 0 <= volatility.
Proof.
  unfold _validate_inputs, _validate_positive.
  destruct (Rle_dec spot 0); cbn [bind];
    [split; [discriminate | intros (?&?&?&?&?); lra]|].
  destruct (Rle_dec maturity 0); cbn [bind];
    [split; [discriminate | intros (?&?&?&?&?); lra]|].
  destruct (Rle_dec (IZR steps) 0) as [Hs|Hs]; cbn [bind].
  { split; [discriminate|]. intros (?&?&Hst&?&?). apply IZR_lt in Hst. lra. }
  destruct (Rle_dec (IZR paths) 0) as [Hp|Hp]; cbn [bind].
  { split; [discriminate|]. intros (?&?&?&Hpt&?). apply IZR_lt in Hpt. lra. }
  assert (0 < steps)%Z by (apply lt_IZR; lra).
  assert (0 < paths)%Z by (apply lt_IZR; lra).
  destruct (Rlt_dec volatility 0); [split; [discriminate | intros (?&?&?&?&?); lra]|].
  split; [intros _; repeat split; first [lra | lia] | reflexivity].
Qed.

Lemma simulate_path_prefix drift diffusion draws (k : nat) price prices pos :
  let '(_, prices', _) := simulate_path drift diffusion draws k price prices pos in
  List.length prices' = (List.length prices + k)%nat /\ exists tail, prices' = prices ++ tail.
Proof.
  revert price prices pos. induction k as [|k IH]; intros price prices pos; cbn [simulate_path].
  - split; [lia | exists []; now rewrite app_nil_r].
  - specialize (IH (price * exp (drift + diffusion * draws pos))
                   (prices ++ [price * exp (drift + diffusion * draws pos)]) (S pos)).
    destruct (simulate_path _ _ _ k _ _ _) as [[p' prices'] pos'].
    destruct IH as (Hl & tail & ->). rewrite !length_app in Hl.
    rewrite !length_app. cbn [List.length] in Hl |- *.
    split; [lia|]. exists (price * exp (drift + diffusion * draws pos) :: tail). now rewrite <- app_assoc.
Qed.

Lemma simulate_path_const drift diffusion draws (k : nat) price prices pos :
  drift = 0 -> diffusion = 0 ->
  simulate_path drift diffusion draws k price prices pos = (price, prices ++ repeat price k, (pos + k)%nat).
Proof.
  intros -> ->. revert prices pos. induction k as [|k IH]; intros prices pos; cbn [simulate_path].
  - now rewrite app_nil_r, Nat.add_0_r.
  - rewrite Rmult_0_l, Rplus_0_l, exp_0, Rmult_1_r, IH.
    f_equal; [f_equal; now rewrite <- app_assoc | lia].
Qed.

Lemma simulate_paths_shape drift diffusion draws payoff (m : nat) spot (steps : nat)
    sp pf pos sp' pf' pos' :
  simulate_paths drift diffusion draws payoff m spot steps sp pf pos = Ok (sp', pf', pos') ->
  List.length sp' = (List.length sp + m)%nat /\ List.length pf' = (List.length pf + m)%nat /\
  (Forall (fun path => List.length path = S steps /\ hd_error path = Some spot) sp ->
   Forall (fun path => List.length path = S steps /\ hd_error path = Some spot) sp').
Proof.
  revert sp pf pos. induction m as [|m IH]; intros sp pf pos H; cbn [simulate_paths] in H.
  - injection H as <- <- <-. split; [lia | split; [lia | auto]].
  - pose proof (simulate_path_prefix drift diffusion draws steps spot [spot] pos) as Hpre.
    destruct (simulate_path _ _ _ steps spot [spot] pos) as [[price prices] pos1].
    destruct (payoff price prices) as [v|e]; cbn [bind] in H; [|discriminate H].
    destruct (IH _ _ _ H) as (Hl1 & Hl2 & Hf).
    rewrite length_app in Hl1, Hl2. cbn [List.length] in Hl1, Hl2.
    split; [lia | split; [lia|]]. intros Hsp. apply Hf. apply Forall_app. split; [exact Hsp|].
    constructor; [|constructor]. destruct Hpre as (Hlen & tail & ->).
    cbn [List.length] in Hlen. split; [exact Hlen | reflexivity].
Qed.

Lemma simulate_paths_total drift diffusion draws payoff (m : nat) spot (steps : nat) sp pf pos :
  (forall p l, exists v, payoff p l = Ok v) ->
  exists r, simulate_paths drift diffusion draws payoff m spot steps sp pf pos = Ok r.
Proof.
  intros Hpay. revert sp pf pos. induction m as [|m IH]; intros sp pf pos; cbn [simulate_paths].
  - eexists; reflexivity.
  - destruct (simulate_path _ _ _ steps spot [spot] pos) as [[price prices] pos1].
    destruct (Hpay price prices) as [v ->]. cbn [bind]. apply IH.
Qed.

(** What a successful run has computed. *)
Lemma monte_carlo_ok_inv spot maturity rate volatility steps paths payoff draws res :
  monte_carlo_option_price spot maturity rate volatility steps paths payoff draws = Ok res ->
  0 < spot /\ 0 < maturity /\ (0 < steps)%Z /\ (0 < paths)%Z /\ 0 <= volatility /\
  (exists pos,
     simulate_paths ((rate - 0.5 * volatility * volatility) * (maturity / IZR steps))
       (volatility * sqrt (maturity / IZR steps)) draws payoff (Z.to_nat paths) spot
       (Z.to_nat steps) [] [] 0 = Ok (MonteCarloOption.paths res, payoffs res, pos)) /\
  price res = exp (- rate * maturity) * py_sum (payoffs res) / INR (List.length (payoffs res)).
Proof.
  intros H. unfold monte_carlo_option_price in H.
  destruct (_validate_inputs spot maturity rate volatility steps paths) as [[]|e] eqn:Hv;
    [|discriminate H].
  apply validate_inputs_ok in Hv. destruct Hv as (Hspot & Hmat & Hsteps & Hpaths & Hvol).
  cbn [bind] in H.
  assert (HZ : 0 < IZR steps) by (apply IZR_lt; lia).
  rewrite py_div_ok in H by lra. cbn [bind] in H.
  rewrite math_sqrt_ok in H by (left; apply Rdiv_lt_0_compat; lra). cbn [bind] in H.
  cbv zeta in H.
  destruct (simulate_paths _ _ _ _ _ _ _ _ _ _) as [[[sp pf] pos]|e] eqn:Hrun;
    [|discriminate H].
  cbn [bind] in H. revert H. unfold py_div.
  destruct (Req_EM_T _ _); cbn [bind]; [discriminate|]. intros H. injection H as <-.
  cbn [price payoffs MonteCarloOption.paths].
  do 5 (split; [assumption|]). split; [exists pos; reflexivity | reflexivity].
Qed.

Lemma py_sum_fold_right (xs : list R) : py_sum xs = fold_right Rplus 0 xs.
Proof.
  unfold py_sum. apply fold_symmetric; intros; ring.
Qed.

(** Every run whose inputs pass validation and whose payoff never raises
    returns a result. *)
Lemma monte_carlo_runs spot maturity rate volatility steps paths payoff draws :
  0 < spot -> 0 < maturity -> (0 < steps)%Z -> (0 < paths)%Z -> 0 <= volatility ->
  (forall p l, exists v, payoff p l = Ok v) ->
  exists res,
    monte_carlo_option_price spot maturity rate volatility steps paths payoff draws = Ok res.
Proof.
  intros Hspot Hmat Hsteps Hpaths Hvol Hpay. unfold monte_carlo_option_price.
  rewrite (proj2 (validate_inputs_ok spot maturity rate volatility steps paths))
    by (repeat split; assumption).
  cbn [bind]. rewrite py_div_ok by (apply Rgt_not_eq, IZR_lt; lia). cbn [bind].
  rewrite math_sqrt_ok by (left; apply Rdiv_lt_0_compat; [lra | apply IZR_lt; lia]).
  cbn [bind]. cbv zeta.
  match goal with
  | |- context [simulate_paths ?a ?b ?c ?d ?m ?x ?k ?sp ?pf ?pos] =>
      destruct (simulate_paths_total a b c d m x k sp pf pos Hpay) as ([[sp' pf'] pos'] & Hr);
      pose proof (simulate_paths_shape a b c d m x k sp pf pos sp' pf' pos' Hr) as (_ & Hl & _)
  end.
  rewrite Hr. cbn [bind]. cbn [List.length] in Hl.
  rewrite py_div_ok by (rewrite Hl; apply not_0_INR; lia).
  eexists. reflexivity.
Qed.

(** ** Claims about monte_carlo_option_price *)

(** C6: the price of a successful run is [exp(-rate * maturity)] times the
    arithmetic mean (sum divided by count) of the payoffs it returns. *)
Theorem price_is_discounted_mean spot maturity rate volatility steps paths payoff draws res :
  monte_carlo_option_price spot maturity rate volatility steps paths payoff draws = Ok res ->
  price res = exp (- rate * maturity) *
              (fold_right Rplus 0 (payoffs res) / INR (List.length (payoffs res))).
Proof.
  intros H. destruct (monte_carlo_ok_inv _ _ _ _ _ _ _ _ _ H) as (_ & _ & _ & _ & _ & _ & ->).
  rewrite py_sum_fold_right. unfold Rdiv. ring.
Qed.

(** C7: with one path of one step, zero volatility and zero rate, the run
    returns one payoff and the single path [[spot, spot]], whatever the
    draws (given that the payoff returns a value on that path). *)
Theorem deterministic_single_path spot maturity payoff draws v :
  0 < spot -> 0 < maturity -> payoff spot [spot; spot] = Ok v ->
  exists res,
    monte_carlo_option_price spot maturity 0 0 1 1 payoff draws = Ok res /\
    payoffs res = [v] /\ MonteCarloOption.paths res = [[spot; spot]].
Proof.
  intros Hspot Hmat Hpay. unfold monte_carlo_option_price.
  rewrite (proj2 (validate_inputs_ok spot maturity 0 0 1 1))
    by (repeat split; first [lra | lia]).
  cbn [bind]. rewrite py_div_ok by (apply Rgt_not_eq, IZR_lt; lia). cbn [bind].
  rewrite math_sqrt_ok by (left; apply Rdiv_lt_0_compat; [lra | apply IZR_lt; lia]).
  cbn [bind]. cbv zeta. change (Z.to_nat 1) with 1%nat. cbn [simulate_paths].
  rewrite simulate_path_const by ring. cbn [repeat app]. rewrite Hpay. cbn [bind simulate_paths].
  rewrite py_div_ok by (cbn; lra). cbn [bind].
  eexists. split; [reflexivity | split; reflexivity].
Qed.

(** C8: a successful run returns as many paths and payoffs as requested;
    every path has [steps + 1] points and starts at [spot]. *)
Theorem paths_shape spot maturity rate volatility steps paths payoff draws res :
  monte_carlo_option_price spot maturity rate volatility steps paths payoff draws = Ok res ->
  Z.of_nat (List.length (MonteCarloOption.paths res)) = paths /\
  Z.of_nat (List.length (payoffs res)) = paths /\
  Forall (fun path => List.length path = S (Z.to_nat steps) /\ hd_error path = Some spot)
    (MonteCarloOption.paths res).
Proof.
  intros H. destruct (monte_carlo_ok_inv _ _ _ _ _ _ _ _ _ H)
    as (_ & _ & _ & Hpaths & _ & (pos & Hrun) & _).
  destruct (simulate_paths_shape _ _ _ _ _ _ _ _ _ _ _ _ _ Hrun) as (Hl1 & Hl2 & Hf).
  cbn [List.length] in Hl1, Hl2.
  split; [rewrite Hl1; lia | split; [rewrite Hl2; lia | apply Hf; constructor]].
Qed.

Lemma price_is_discounted_mean_witness :
  exists res,
    monte_carlo_option_price 100 1 (5 / 100) (2 / 10) 2 3 (fun _ _ => Ok 0) (fun _ => 0)
      = Ok res /\
    price res = exp (- (5 / 100) * 1) *
                (fold_right Rplus 0 (payoffs res) / INR (List.length (payoffs res))).
Proof.
  destruct (monte_carlo_runs 100 1 (5 / 100) (2 / 10) 2 3 (fun _ _ => Ok 0) (fun _ => 0)
              ltac:(lra) ltac:(lra) ltac:(lia) ltac:(lia) ltac:(lra)
              (fun _ _ => ex_intro _ 0 eq_refl)) as (res & Hres).
  exists res. split; [exact Hres|].
  exact (price_is_discounted_mean 100 1 (5 / 100) (2 / 10) 2 3 (fun _ _ => Ok 0) (fun _ => 0)
           res Hres).
Defined.

Lemma deterministic_single_path_witness :
  (0 < 100 /\ 0 < 1 /\ (fun (_ : R) (_ : list R) => Ok 0) 100 [100; 100] = Ok 0) /\
  exists res,
    monte_carlo_option_price 100 1 0 0 1 1 (fun _ _ => Ok 0) (fun k => INR k) = Ok res /\
    payoffs res = [0] /\ MonteCarloOption.paths res = [[100; 100]].
Proof.
  split; [split; [lra | split; [lra | reflexivity]]|].
  apply (deterministic_single_path 100 1 (fun _ _ => Ok 0) (fun k => INR k) 0);
    [lra | lra | reflexivity].
Defined.

Lemma paths_shape_witness :
  exists res,
    monte_carlo_option_price 100 1 (5 / 100) (2 / 10) 2 3 (fun _ _ => Ok 0) (fun _ => 0)
      = Ok res /\
    Z.of_nat (List.length (MonteCarloOption.paths res)) = 3%Z /\
    Z.of_nat (List.length (payoffs res)) = 3%Z.
Proof.
  destruct (monte_carlo_runs 100 1 (5 / 100) (2 / 10) 2 3 (fun _ _ => Ok 0) (fun _ => 0)
              ltac:(lra) ltac:(lra) ltac:(lia) ltac:(lia) ltac:(lra)
              (fun _ _ => ex_intro _ 0 eq_refl)) as (res & Hres).
  exists res. split; [exact Hres|].
  destruct (paths_shape 100 1 (5 / 100) (2 / 10) 2 3 (fun _ _ => Ok 0) (fun _ => 0) res Hres)
    as (H1 & H2 & _).
  split; [exact H1 | exact H2].
Defined.

End MonteCarloProofs.

(** ** The shared parameter validation *)

Module ValidationProofs.

(** C9, counterexample: a zero rate passes both validators (and so does a
    negative one), and both pricers then return a result instead of a
    validation error. *)
Lemma rate_not_validated :
  BinomialOption._validate_parameters 100 100 1 0 (2 / 10) 10 = Ok tt /\
  MonteCarloOption._validate_inputs 100 1 0 (2 / 10) 10 100 = Ok tt /\
  BinomialOption._validate_parameters 100 100 1 (- 5 / 100) (2 / 10) 10 = Ok tt /\
  MonteCarloOption._validate_inputs 100 1 (- 5 / 100) (2 / 10) 10 100 = Ok tt /\
  (exists res, BinomialOption.binomial_option_price 100 100 1 0 (2 / 10) 2 "call" false 0
                 = Ok res) /\
  (exists res, MonteCarloOption.monte_carlo_option_price 100 1 0 (2 / 10) 10 100
                 (fun _ _ => Ok 0) (fun _ => 0) = Ok res).
Proof.
  split; [apply BinomialProofs.validate_parameters_ok; repeat split; first [lra | lia]|].
  split; [apply MonteCarloProofs.validate_inputs_ok; repeat split; first [lra | lia]|].
  split; [apply BinomialProofs.validate_parameters_ok; repeat split; first [lra | lia]|].
  split; [apply MonteCarloProofs.validate_inputs_ok; repeat split; first [lra | lia]|].
  split; [exact BinomialProofs.binomial_runs|].
  apply MonteCarloProofs.monte_carlo_runs; try lra; try lia.
  intros _ _. exists 0. reflexivity.
Qed.

(** C9, amended: neither validator examines [rate].  The lattice validator
    accepts exactly when spot, strike, maturity and steps are positive and
    volatility is non-negative; the Monte Carlo validator exactly when spot,
    maturity, steps and paths are positive and volatility is non-negative;
    whatever the rate, including zero and negative rates. *)
Theorem validation_ignores_rate spot strike maturity rate volatility steps paths :
  (BinomialOption._validate_parameters spot strike maturity rate volatility steps = Ok tt <->
   0 < spot /\ 0 < strike /\ 0 < maturity /\ (0 < steps)%Z /\ 0 <= volatility) /\
  (MonteCarloOption._validate_inputs spot maturity rate volatility steps paths = Ok tt <->
   0 < spot /\ 0 < maturity /\ (0 < steps)%Z /\ (0 < paths)%Z /\ 0 <= volatility).
Proof.
  split; [apply BinomialProofs.validate_parameters_ok | apply MonteCarloProofs.validate_inputs_ok].
Qed.

End ValidationProofs.

(** ** Payoff expressions *)

Module PayoffProofs.
Import PayoffExpression.

(** A parsed expression that passes the validator compiles to [payoff]
    over its tree. *)
Lemma payoff_from_expression_compiled (s : string) (tree : mod_) :
  ast_parse s = Parsed tree -> visit_mod tree = Ok tt ->
  payoff_from_expression s = Ok (payoff tree).
Proof.
  intros Hp Hv. unfold payoff_from_expression. rewrite Hp. cbn [bind]. rewrite Hv. reflexivity.
Qed.

Lemma parse_max_payoff :
  ast_parse "max(price - 100, 0)" =
  Parsed (Expression (Call (Name "max" Load)
                        [BinOp (Name "price" Load) Sub (Constant (CInt 100)); Constant (CInt 0)] [])).
Proof. vm_compute. reflexivity. Qed.

Lemma parse_class_payoff :
  ast_parse "price.__class__" = Parsed (Expression (Attribute (Name "price" Load) "__class__" Load)).
Proof. vm_compute. reflexivity. Qed.

Lemma parse_log_payoff :
  ast_parse "log(price)" = Parsed (Expression (Call (Name "log" Load) [Name "price" Load] [])).
Proof. vm_compute. reflexivity. Qed.

Lemma parse_division_payoff :
  ast_parse "price / (price - price)" =
  Parsed (Expression (BinOp (Name "price" Load) Div (BinOp (Name "price" Load) Sub (Name "price" Load)))).
Proof. vm_compute. reflexivity. Qed.

Lemma max_payoff_value (p : R) (path : list R) :
  payoff (Expression (Call (Name "max" Load)
                        [BinOp (Name "price" Load) Sub (Constant (CInt 100)); Constant (CInt 0)] []))
    p path = Ok (Rmax (p - 100) 0).
Proof.
  cbn -[Rlt_dec Rle_dec Req_EM_T IZR].
  destruct (Rlt_dec (p - IZR 100) (IZR 0)) as [Hlt | Hge]; cbn -[IZR];
    unfold Rmax; destruct (Rle_dec (p - 100) 0); f_equal; lra.
Qed.

Lemma class_payoff_value (p : R) (path : list R) :
  payoff (Expression (Attribute (Name "price" Load) "__class__" Load)) p path =
  Err (TypeError "float() argument must be a string or a real number, not 'type'").
Proof. reflexivity. Qed.

Lemma log_payoff_value (p : R) (path : list R) :
  p <= 0 ->
  payoff (Expression (Call (Name "log" Load) [Name "price" Load] [])) p path =
  Err (ValueError "math domain error").
Proof.
  intros Hp. cbn -[Rlt_dec Rle_dec Req_EM_T IZR].
  destruct (Rlt_dec 0 p) as [Hlt | Hge]; [lra | reflexivity].
Qed.

Lemma division_payoff_value (p : R) (path : list R) :
  payoff (Expression (BinOp (Name "price" Load) Div (BinOp (Name "price" Load) Sub (Name "price" Load))))
    p path = Err ZeroDivisionError.
Proof.
  cbn -[Rlt_dec Rle_dec Req_EM_T IZR].
  destruct (Req_EM_T (p - p) 0) as [H0 | Hne]; [reflexivity | lra].
Qed.

(** C1: [payoff_from_expression] rejects ["import os"] (a syntax error) and
    ["__import__('os')"] (a function that is not allowed) with a
    [ValueError], and compiles ["max(price - 100, 0)"] to a payoff returning
    [max(p - 100, 0)] for every price [p] and path.  It does not reject
    ["price.__class__"]: the validator allows [Attribute] nodes on any
    receiver, restricting only the receivers of calls, so the expression
    compiles and its payoff raises [TypeError] when called. *)
Theorem attribute_on_price_compiles :
  payoff_from_expression "import os" = Err (ValueError syntax_error_message) /\
  payoff_from_expression "__import__('os')" =
    Err (ValueError "Function __import__ is not allowed.") /\
  (exists f, payoff_from_expression "max(price - 100, 0)" = Ok f /\
             forall p path, f p path = Ok (Rmax (p - 100) 0)) /\
  (exists f, payoff_from_expression "price.__class__" = Ok f /\
             forall p path, f p path =
               Err (TypeError "float() argument must be a string or a real number, not 'type'")).
Proof.
  split; [vm_compute; reflexivity |].
  split; [vm_compute; reflexivity |].
  split.
  - eexists. split.
    + apply payoff_from_expression_compiled; [exact parse_max_payoff | vm_compute; reflexivity].
    + apply max_payoff_value.
  - eexists. split.
    + apply payoff_from_expression_compiled; [exact parse_class_payoff | vm_compute; reflexivity].
    + apply class_payoff_value.
Qed.

(** C2, counterexample: ["log(price)"] compiles, and its payoff raises
    [ValueError("math domain error")] at the well-formed input
    [price = 0.0], [path = [0.0]] instead of returning a float. *)
Theorem log_payoff_raises :
  exists f, payoff_from_expression "log(price)" = Ok f /\
            f 0 [0] = Err (ValueError "math domain error").
Proof.
  eexists. split.
  - apply payoff_from_expression_compiled; [exact parse_log_payoff | vm_compute; reflexivity].
  - apply log_payoff_value. lra.
Qed.

(** C2, amended: a compiled payoff propagates Python's exceptions rather
    than returning NaN or Inf.  ["log(price)"] compiles and raises
    [ValueError("math domain error")] at every price [p <= 0], and
    ["price / (price - price)"] compiles and raises [ZeroDivisionError] at
    every price. *)
Theorem compiled_payoffs_raise (p : R) (path : list R) (Hp : p <= 0) :
  (exists f, payoff_from_expression "log(price)" = Ok f /\
             f p path = Err (ValueError "math domain error")) /\
  (exists g, payoff_from_expression "price / (price - price)" = Ok g /\
             forall q qs, g q qs = Err ZeroDivisionError).
Proof.
  split.
  - eexists. split.
    + apply payoff_from_expression_compiled; [exact parse_log_payoff | vm_compute; reflexivity].
    + apply log_payoff_value. exact Hp.
  - eexists. split.
    + apply payoff_from_expression_compiled; [exact parse_division_payoff | vm_compute; reflexivity].
    + apply division_payoff_value.
Qed.

Lemma compiled_payoffs_raise_witness :
  0 <= 0 /\
  ((exists f, payoff_from_expression "log(price)" = Ok f /\
              f 0 [0] = Err (ValueError "math domain error")) /\
   (exists g, payoff_from_expression "price / (price - price)" = Ok g /\
              forall q qs, g q qs = Err ZeroDivisionError)).
Proof.
  split; [lra | apply (compiled_payoffs_raise 0 [0]); lra].
Defined.

End PayoffProofs.

(** * Further properties of the code *)

(** ** The binomial lattice: values at every node *)

Module BinomialExtras.
Import BinomialOption BinomialProofs.

(** The backward pass writes only the levels it is given. *)
Lemma backward_induction_keeps strike discount probability option_type american asset_prices
    (m : nat) (todo : list Z) (ov ov' : list (list R)) :
  Forall (fun z => (0 <= z)%Z /\ z <> Z.of_nat m) todo ->
  backward_induction strike discount probability option_type american asset_prices todo ov
    = Ok ov' ->
  nth m ov' [] = nth m ov [].
Proof.
  revert ov. induction todo as [|z todo IH]; intros ov Hall H; cbn [backward_induction] in H.
  - injection H as <-. reflexivity.
  - inversion Hall as [|? ? [Hz Hzm] Hrest]; subst.
    destruct (map_result _ _) as [cur|e]; cbn [bind] in H; [|discriminate H].
    destruct (py_setitem ov z cur) as [ov1|e] eqn:Hset; cbn [bind] in H; [|discriminate H].
    rewrite (IH ov1 Hrest H).
    unfold py_setitem, py_norm_index in Hset. cbv zeta in Hset.
    replace (z <? 0)%Z with false in Hset by (symmetry; apply Z.ltb_ge; lia).
    destruct ((0 <=? z)%Z && (z <? Z.of_nat (List.length ov))%Z)%bool; [|discriminate Hset].
    injection Hset as <-. apply nth_replace_nth_other.
    intros Heq. apply Hzm. rewrite Heq, Z2Nat.id; lia.
Qed.

Lemma range_down_bounds (n : nat) :
  Forall (fun z => (0 <= z)%Z /\ z <> Z.of_nat n) (rev (py_range (Z.of_nat n))).
Proof.
  apply Forall_rev. apply Forall_forall. intros z Hz.
  unfold py_range in Hz. rewrite Nat2Z.id in Hz. apply in_map_iff in Hz.
  destruct Hz as (i & <- & Hi). apply in_seq in Hi. lia.
Qed.

(** [binomial_success], with the terminal level of [option_values]. *)
Lemma binomial_success_terminal spot strike maturity rate volatility (n : nat) option_type
    american dividend :
  (0 < n)%nat -> 0 < spot -> 0 < strike -> 0 < maturity -> 0 <= volatility ->
  (option_type = "call"%string \/ option_type = "put"%string) ->
  crr_up maturity volatility (Z.of_nat n) - crr_down maturity volatility (Z.of_nat n) <> 0 ->
  0 <= crr_probability maturity rate volatility (Z.of_nat n) dividend <= 1 ->
  exists ov,
    lattice_invariant strike (crr_discount maturity rate (Z.of_nat n))
      (crr_probability maturity rate volatility (Z.of_nat n) dividend) option_type american
      (build_asset_prices spot (crr_up maturity volatility (Z.of_nat n))
         (crr_down maturity volatility (Z.of_nat n)) (Z.of_nat n)) n 0 ov /\
    nth n ov [] = map (exercise_value option_type strike)
                    (lattice_level spot (crr_up maturity volatility (Z.of_nat n))
                       (crr_down maturity volatility (Z.of_nat n)) (Z.of_nat n)) /\
    binomial_option_price spot strike maturity rate volatility (Z.of_nat n) option_type
      american dividend =
    Ok {| price := nth 0 (nth 0 ov []) 0;
          asset_prices := build_asset_prices spot (crr_up maturity volatility (Z.of_nat n))
                            (crr_down maturity volatility (Z.of_nat n)) (Z.of_nat n);
          option_values := ov |}.
Proof.
  intros Hn Hspot Hstrike Hmat Hvol Htype Hud Hp.
  set (asset := build_asset_prices spot (crr_up maturity volatility (Z.of_nat n))
                  (crr_down maturity volatility (Z.of_nat n)) (Z.of_nat n)).
  assert (Hsteps : 0 < IZR (Z.of_nat n)) by (apply IZR_lt; lia).
  assert (Hdt : 0 < maturity / IZR (Z.of_nat n)) by (apply Rdiv_lt_0_compat; lra).
  assert (Hasset_len : List.length asset = S n) by apply build_asset_prices_length.
  assert (Hasset_w : forall s, (s <= n)%nat -> List.length (nth s asset []) = S s).
  { intros s Hs. unfold asset. rewrite build_asset_prices_nth by exact Hs.
    apply lattice_level_length. }
  assert (Hterm : List.length (map (exercise_value option_type strike)
                                 (nth (List.length asset - 1) asset [])) = S n).
  { rewrite length_map, Hasset_len. replace (S n - 1)%nat with n by lia. apply Hasset_w. lia. }
  rewrite Hasset_len in Hterm.
  pose proof (initial_invariant strike (crr_discount maturity rate (Z.of_nat n))
                (crr_probability maturity rate volatility (Z.of_nat n) dividend) option_type
                american asset n _ Hterm) as Hinit.
  destruct (backward_induction_ok _ _ _ _ _ _ n Hasset_len Hasset_w n _ (le_n n) Hinit)
    as (ov & Hrun & Hinv).
  pose proof (backward_induction_keeps _ _ _ _ _ _ n _ _ _ (range_down_bounds n) Hrun) as Hkeep.
  exists ov. split; [exact Hinv|]. split.
  { rewrite Hkeep. replace (S n - 1)%nat with n by lia.
    rewrite nth_replace_nth_same by (rewrite repeat_length; lia).
    unfold asset. rewrite build_asset_prices_nth by lia. reflexivity. }
  unfold binomial_option_price.
  rewrite (proj2 (validate_parameters_ok spot strike maturity rate volatility (Z.of_nat n)))
    by (repeat split; first [lra | lia]).
  cbn [bind].
  assert (Ht : (String.eqb option_type "call" || String.eqb option_type "put")%bool = true)
    by (destruct Htype as [-> | ->]; reflexivity).
  rewrite Ht. cbn [negb].
  rewrite py_div_ok by lra. cbn [bind].
  rewrite math_sqrt_ok by lra. cbn [bind]. cbv zeta.
  rewrite py_div_ok by (apply Rgt_not_eq, exp_pos). cbn [bind].
  unfold crr_probability, crr_down, crr_up, crr_dt in Hud, Hp, Hrun.
  rewrite py_div_ok by exact Hud. cbn [bind].
  destruct (Rle_dec 0 _) as [_|?]; [|lra].
  destruct (Rle_dec _ 1) as [_|?]; [|lra].
  cbn [negb].
  change (build_asset_prices spot _ _ (Z.of_nat n)) with asset.
  rewrite (py_getitem_last asset []) by lia. cbn [bind].
  replace (Z.of_nat n + 1)%Z with (Z.of_nat (S n)) by lia. rewrite Nat2Z.id.
  rewrite py_setitem_last by (rewrite repeat_length; lia). cbn [bind].
  rewrite repeat_length, Hasset_len.
  unfold range_down. unfold crr_discount, crr_dt in Hrun. rewrite Hrun. cbn [bind].
  destruct Hinv as (Hlen & Hwidth & _).
  change 0%Z with (Z.of_nat 0).
  rewrite (py_getitem_nat ov 0 []) by lia. cbn [bind].
  rewrite (py_getitem_nat _ 0 0) by (rewrite Hwidth; lia). reflexivity.
Qed.

(** What a successful run returns, in terms of the derived constants. *)
Lemma binomial_result spot strike maturity rate volatility steps option_type american
    dividend res :
  binomial_option_price spot strike maturity rate volatility steps option_type american
    dividend = Ok res ->
  let n := Z.to_nat steps in
  let up := crr_up maturity volatility steps in
  let down := crr_down maturity volatility steps in
  let probability := crr_probability maturity rate volatility steps dividend in
  let discount := crr_discount maturity rate steps in
  steps = Z.of_nat n /\ (0 < n)%nat /\ 0 < spot /\ 0 < strike /\ 0 < maturity /\
  0 <= volatility /\ up - down <> 0 /\ 0 <= probability <= 1 /\
  asset_prices res = build_asset_prices spot up down steps /\
  lattice_invariant strike discount probability option_type american
    (build_asset_prices spot up down steps) n 0 (option_values res) /\
  nth n (option_values res) [] =
    map (exercise_value option_type strike) (lattice_level spot up down steps) /\
  price res = nth 0 (nth 0 (option_values res) []) 0.
Proof.
  intros H. pose proof (binomial_ok_conditions _ _ _ _ _ _ _ _ _ _ H)
    as (Hspot & Hstrike & Hmat & Hsteps & Hvol & Htype & Hud & Hp).
  intros n up down probability discount.
  assert (Hsn : steps = Z.of_nat n) by (apply steps_of_nat; exact Hsteps).
  unfold up, down, probability, discount in *. clearbody n. subst steps.
  destruct (binomial_success_terminal spot strike maturity rate volatility n option_type
              american dividend ltac:(lia) Hspot Hstrike Hmat Hvol Htype Hud Hp)
    as (ov & Hinv & Hterm & Hrun).
  rewrite Hrun in H. injection H as <-. cbn [price asset_prices option_values].
  split; [reflexivity|]. split; [lia|]. do 4 (split; [assumption|]).
  split; [exact Hud|]. split; [exact Hp|]. split; [reflexivity|].
  split; [exact Hinv|]. split; [exact Hterm | reflexivity].
Qed.

(** [range] of levels from [n] down to [0]. *)
Lemma downward_levels (n : nat) (P : nat -> nat -> Prop) :
  (forall j, (j <= n)%nat -> P n j) ->
  (forall s, (s < n)%nat -> (forall j, (j <= S s)%nat -> P (S s) j) ->
     forall j, (j <= s)%nat -> P s j) ->
  forall s j, (s <= n)%nat -> (j <= s)%nat -> P s j.
Proof.
  intros Hn Hstep.
  assert (H : forall k s, (s + k = n)%nat -> forall j, (j <= s)%nat -> P s j).
  { induction k as [|k IH]; intros s Hs j Hj.
    - replace s with n by lia. apply Hn. lia.
    - apply Hstep; [lia | | exact Hj]. intros j' Hj'. apply IH; lia. }
  intros s j Hs Hj. apply (H (n - s)%nat s); lia.
Qed.

Lemma exercise_value_nonneg option_type strike s : 0 <= exercise_value option_type strike s.
Proof.
  unfold exercise_value. destruct (String.eqb option_type "call"); rewrite py_max_Rmax;
    apply Rmax_r.
Qed.

Section NodeFacts.

Variables (strike discount probability spot up down : R) (n : nat) (option_type : string)
  (american : bool) (ov : list (list R)).

Hypothesis Hinv : lattice_invariant strike discount probability option_type american
  (build_asset_prices spot up down (Z.of_nat n)) n 0 ov.
Hypothesis Hterm : nth n ov [] =
  map (exercise_value option_type strike) (lattice_level spot up down (Z.of_nat n)).

Lemma value_terminal (j : nat) :
  (j <= n)%nat ->
  nth j (nth n ov []) 0 = exercise_value option_type strike (spot * up ^ j * down ^ (n - j)).
Proof.
  intros Hj. rewrite Hterm.
  rewrite (nth_indep _ 0 (exercise_value option_type strike 0))
    by (rewrite length_map, lattice_level_length; lia).
  rewrite map_nth, lattice_level_nth by lia. reflexivity.
Qed.

Lemma value_inner (s j : nat) :
  (s < n)%nat -> (j <= s)%nat ->
  nth j (nth s ov []) 0 =
  let continuation :=
    discount * (probability * nth (S j) (nth (S s) ov []) 0
                + (1 - probability) * nth j (nth (S s) ov []) 0) in
  if american
  then Rmax continuation (exercise_value option_type strike (spot * up ^ j * down ^ (s - j)))
  else continuation.
Proof.
  intros Hs Hj. destruct Hinv as (_ & _ & Hf). rewrite Hf by lia.
  unfold node_formula. rewrite build_asset_prices_nth by lia.
  rewrite lattice_level_nth by lia. rewrite py_max_Rmax. reflexivity.
Qed.

End NodeFacts.

(** The four facts below are proved level by level, from the terminal level
    [n] down to level 0, over runs that share their lattice. *)
Section LevelInduction.

Variables (strike discount probability spot up down : R) (n : nat).

Let asset := build_asset_prices spot up down (Z.of_nat n).
Let terminal (option_type : string) :=
  map (exercise_value option_type strike) (lattice_level spot up down (Z.of_nat n)).
Let inv (option_type : string) (american : bool) :=
  lattice_invariant strike discount probability option_type american asset n 0.

Hypothesis Hdisc : 0 < discount.
Hypothesis Hprob : 0 <= probability <= 1.

Lemma continuation_monotone (a1 a0 b1 b0 : R) :
  b1 <= a1 -> b0 <= a0 ->
  discount * (probability * b1 + (1 - probability) * b0) <=
  discount * (probability * a1 + (1 - probability) * a0).
Proof.
  intros H1 H0. apply Rmult_le_compat_l; [lra|].
  apply Rplus_le_compat; apply Rmult_le_compat_l; lra.
Qed.

Lemma values_nonneg option_type american ov :
  inv option_type american ov -> nth n ov [] = terminal option_type ->
  forall s j, (s <= n)%nat -> (j <= s)%nat -> 0 <= nth j (nth s ov []) 0.
Proof.
  intros Hinv Hterm. apply downward_levels.
  - intros j Hj. rewrite (value_terminal _ _ _ _ _ _ _ Hterm j Hj).
    apply exercise_value_nonneg.
  - intros s Hs IH j Hj. rewrite (value_inner _ _ _ _ _ _ _ _ _ _ Hinv s j Hs Hj). cbv zeta.
    assert (Hc : 0 <= discount * (probability * nth (S j) (nth (S s) ov []) 0 +
                                  (1 - probability) * nth j (nth (S s) ov []) 0)).
    { rewrite <- (Rmult_0_r discount) at 1.
      replace 0 with (probability * 0 + (1 - probability) * 0) at 1 by ring.
      apply continuation_monotone; apply IH; lia. }
    destruct american; [apply (Rle_trans _ _ _ Hc), Rmax_l | exact Hc].
Qed.

Lemma american_dominates option_type ova ove :
  inv option_type true ova -> nth n ova [] = terminal option_type ->
  inv option_type false ove -> nth n ove [] = terminal option_type ->
  forall s j, (s <= n)%nat -> (j <= s)%nat ->
    nth j (nth s ove []) 0 <= nth j (nth s ova []) 0.
Proof.
  intros Ha Hta He Hte. apply downward_levels.
  - intros j Hj. rewrite Hta, Hte. lra.
  - intros s Hs IH j Hj.
    rewrite (value_inner _ _ _ _ _ _ _ _ _ _ Ha s j Hs Hj),
            (value_inner _ _ _ _ _ _ _ _ _ _ He s j Hs Hj). cbv zeta.
    eapply Rle_trans; [|apply Rmax_l]. apply continuation_monotone; apply IH; lia.
Qed.

Lemma american_exercise_bound option_type ova :
  inv option_type true ova -> nth n ova [] = terminal option_type ->
  forall s j, (s <= n)%nat -> (j <= s)%nat ->
    exercise_value option_type strike (spot * up ^ j * down ^ (s - j)) <= nth j (nth s ova []) 0.
Proof.
  intros Ha Hta s j Hs Hj. destruct (Nat.eq_dec s n) as [->|Hne].
  - rewrite (value_terminal _ _ _ _ _ _ _ Hta j Hj). lra.
  - rewrite (value_inner _ _ _ _ _ _ _ _ _ _ Ha s j ltac:(lia) Hj). cbv zeta. apply Rmax_r.
Qed.

(** One step of the risk-neutral expectation of the asset price. *)
Variable growth : R.
Hypothesis Hmove : probability * up + (1 - probability) * down = growth.

Lemma european_parity_nodes ovc ovp :
  inv "call" false ovc -> nth n ovc [] = terminal "call" ->
  inv "put" false ovp -> nth n ovp [] = terminal "put" ->
  forall s j, (s <= n)%nat -> (j <= s)%nat ->
    nth j (nth s ovc []) 0 - nth j (nth s ovp []) 0 =
    spot * up ^ j * down ^ (s - j) * (discount * growth) ^ (n - s)
    - strike * discount ^ (n - s).
Proof.
  intros Hc Htc Hp Htp. apply downward_levels.
  - intros j Hj. rewrite (value_terminal _ _ _ _ _ _ _ Htc j Hj),
                         (value_terminal _ _ _ _ _ _ _ Htp j Hj).
    rewrite Nat.sub_diag. unfold exercise_value. cbn [String.eqb Ascii.eqb Bool.eqb pow].
    rewrite !py_max_Rmax. unfold Rmax.
    destruct (Rle_dec _ 0), (Rle_dec _ 0); lra.
  - intros s Hs IH j Hj.
    rewrite (value_inner _ _ _ _ _ _ _ _ _ _ Hc s j Hs Hj),
            (value_inner _ _ _ _ _ _ _ _ _ _ Hp s j Hs Hj). cbv zeta.
    pose proof (IH (S j) ltac:(lia)) as H1. pose proof (IH j ltac:(lia)) as H0.
    replace (S s - S j)%nat with (s - j)%nat in H1 by lia.
    replace (S s - j)%nat with (S (s - j)) in H0 by lia.
    replace (n - s)%nat with (S (n - S s)) by lia.
    cbn [pow] in H1, H0 |- *.
    set (X := spot * up ^ j * down ^ (s - j)) in *.
    set (E := (discount * growth) ^ (n - S s)) in *.
    set (F := discount ^ (n - S s)) in *.
    replace (spot * (up * up ^ j) * down ^ (s - j)) with (X * up) in H1 by (unfold X; ring).
    replace (spot * up ^ j * (down * down ^ (s - j))) with (X * down) in H0 by (unfold X; ring).
    set (c1 := nth (S j) (nth (S s) ovc []) 0) in *.
    set (c0 := nth j (nth (S s) ovc []) 0) in *.
    set (p1 := nth (S j) (nth (S s) ovp []) 0) in *.
    set (p0 := nth j (nth (S s) ovp []) 0) in *.
    replace c1 with (p1 + (X * up * E - strike * F)) by lra.
    replace c0 with (p0 + (X * down * E - strike * F)) by lra.
    rewrite <- Hmove. ring.
Qed.

Lemma european_call_lower_bound ovc :
  inv "call" false ovc -> nth n ovc [] = terminal "call" ->
  forall s j, (s <= n)%nat -> (j <= s)%nat ->
    spot * up ^ j * down ^ (s - j) * (discount * growth) ^ (n - s)
    - strike * discount ^ (n - s) <= nth j (nth s ovc []) 0.
Proof.
  intros Hc Htc. apply downward_levels.
  - intros j Hj. rewrite (value_terminal _ _ _ _ _ _ _ Htc j Hj).
    rewrite Nat.sub_diag. unfold exercise_value. cbn [String.eqb Ascii.eqb Bool.eqb pow].
    rewrite py_max_Rmax. eapply Rle_trans; [|apply Rmax_l]. lra.
  - intros s Hs IH j Hj.
    rewrite (value_inner _ _ _ _ _ _ _ _ _ _ Hc s j Hs Hj). cbv zeta.
    pose proof (IH (S j) ltac:(lia)) as H1. pose proof (IH j ltac:(lia)) as H0.
    replace (S s - S j)%nat with (s - j)%nat in H1 by lia.
    replace (S s - j)%nat with (S (s - j)) in H0 by lia.
    replace (n - s)%nat with (S (n - S s)) by lia.
    cbn [pow] in H1, H0 |- *.
    set (X := spot * up ^ j * down ^ (s - j)) in *.
    set (E := (discount * growth) ^ (n - S s)) in *.
    set (F := discount ^ (n - S s)) in *.
    replace (spot * (up * up ^ j) * down ^ (s - j)) with (X * up) in H1 by (unfold X; ring).
    replace (spot * up ^ j * (down * down ^ (s - j))) with (X * down) in H0 by (unfold X; ring).
    eapply Rle_trans; [|apply (continuation_monotone _ _ _ _ H1 H0)].
    rewrite <- Hmove. right. ring.
Qed.

End LevelInduction.

(** A successful run, with [steps] written as the natural number it is. *)
Lemma binomial_run_nat spot strike maturity rate volatility steps option_type american
    dividend res :
  binomial_option_price spot strike maturity rate volatility steps option_type american
    dividend = Ok res ->
  exists n, steps = Z.of_nat n /\ (0 < n)%nat /\ 0 < spot /\ 0 < strike /\ 0 < maturity /\
  0 <= volatility /\
  crr_up maturity volatility (Z.of_nat n) - crr_down maturity volatility (Z.of_nat n) <> 0 /\
  0 <= crr_probability maturity rate volatility (Z.of_nat n) dividend <= 1 /\
  asset_prices res = build_asset_prices spot (crr_up maturity volatility (Z.of_nat n))
                       (crr_down maturity volatility (Z.of_nat n)) (Z.of_nat n) /\
  lattice_invariant strike (crr_discount maturity rate (Z.of_nat n))
    (crr_probability maturity rate volatility (Z.of_nat n) dividend) option_type american
    (build_asset_prices spot (crr_up maturity volatility (Z.of_nat n))
       (crr_down maturity volatility (Z.of_nat n)) (Z.of_nat n)) n 0 (option_values res) /\
  nth n (option_values res) [] =
    map (exercise_value option_type strike)
      (lattice_level spot (crr_up maturity volatility (Z.of_nat n))
         (crr_down maturity volatility (Z.of_nat n)) (Z.of_nat n)) /\
  price res = nth 0 (nth 0 (option_values res) []) 0.
Proof.
  intros H. destruct (binomial_result _ _ _ _ _ _ _ _ _ _ H) as (Hn & Hrest). cbv zeta in *.
  exists (Z.to_nat steps). split; [exact Hn|]. rewrite <- Hn. exact Hrest.
Qed.

Lemma exp_pow x (n : nat) : exp x ^ n = exp (INR n * x).
Proof.
  induction n as [|n IH].
  - simpl. rewrite Rmult_0_l, exp_0. reflexivity.
  - cbn [pow]. rewrite IH, S_INR, <- exp_plus. f_equal. ring.
Qed.

(** [steps] periods of length [dt] make up the maturity. *)
Lemma exp_over_steps x maturity (n : nat) :
  (0 < n)%nat -> exp (x * crr_dt maturity (Z.of_nat n)) ^ n = exp (x * maturity).
Proof.
  intros Hn. rewrite exp_pow. f_equal. unfold crr_dt. rewrite <- INR_IZR_INZ.
  field. apply not_0_INR. lia.
Qed.

Lemma crr_discount_pos maturity rate steps : 0 < crr_discount maturity rate steps.
Proof. apply exp_pos. Qed.

Lemma crr_expected_move maturity rate volatility steps dividend :
  crr_up maturity volatility steps - crr_down maturity volatility steps <> 0 ->
  crr_probability maturity rate volatility steps dividend * crr_up maturity volatility steps
  + (1 - crr_probability maturity rate volatility steps dividend)
    * crr_down maturity volatility steps
  = exp ((rate - dividend) * crr_dt maturity steps).
Proof. intros H. unfold crr_probability. field. exact H. Qed.

Lemma crr_discount_growth maturity rate steps dividend :
  crr_discount maturity rate steps * exp ((rate - dividend) * crr_dt maturity steps) =
  exp (- dividend * crr_dt maturity steps).
Proof. unfold crr_discount. rewrite <- exp_plus. f_equal. ring. Qed.

Lemma crr_up_down maturity volatility steps :
  crr_up maturity volatility steps * crr_down maturity volatility steps = 1.
Proof.
  unfold crr_down. pose proof (exp_pos (volatility * sqrt (crr_dt maturity steps))).
  unfold crr_up. field. lra.
Qed.

Lemma crr_down_pos maturity volatility steps : 0 < crr_down maturity volatility steps.
Proof. unfold crr_down, crr_up. apply Rdiv_lt_0_compat; [lra | apply exp_pos]. Qed.

Lemma crr_discount_le_1 maturity rate (n : nat) :
  0 <= rate -> 0 < maturity -> (0 < n)%nat -> crr_discount maturity rate (Z.of_nat n) <= 1.
Proof.
  intros Hr Hm Hn. unfold crr_discount.
  assert (Hdt : 0 < crr_dt maturity (Z.of_nat n))
    by (unfold crr_dt; apply Rdiv_lt_0_compat; [lra | apply IZR_lt; lia]).
  rewrite <- exp_0. destruct (Rle_lt_or_eq_dec 0 rate Hr) as [Hlt|Heq].
  - left. apply exp_increasing. nra.
  - right. subst rate. f_equal. ring.
Qed.

Lemma pow_le_one x (k : nat) : 0 <= x <= 1 -> x ^ k <= 1.
Proof.
  intros Hx. induction k as [|k IH]; cbn [pow]; [lra|].
  pose proof (pow_le x k (proj1 Hx)). nra.
Qed.

(** The runs used to instantiate the statements below. *)
Lemma binomial_runs_at option_type american :
  (option_type = "call"%string \/ option_type = "put"%string) ->
  exists res, binomial_option_price 100 100 1 0 (2 / 10) 2 option_type american 0 = Ok res.
Proof.
  intros Htype.
  destruct (crr_no_carry 1 (2 / 10) 2 ltac:(lra) ltac:(lra) ltac:(lia)) as (Hud & Hp).
  destruct (binomial_success 100 100 1 0 (2 / 10) 2 option_type american 0 ltac:(lia) ltac:(lra)
              ltac:(lra) ltac:(lra) ltac:(lra) Htype Hud Hp) as (ov & _ & Hrun).
  eexists. exact Hrun.
Qed.

(** X1: every option value of the lattice of a successful run is
    non-negative, and so is the price. *)
Theorem binomial_values_nonneg spot strike maturity rate volatility steps option_type
    american dividend res :
  binomial_option_price spot strike maturity rate volatility steps option_type american
    dividend = Ok res ->
  0 <= price res /\
  forall s j, (Z.of_nat s <= steps)%Z -> (j <= s)%nat ->
    0 <= nth j (nth s (option_values res) []) 0.
Proof.
  intros H.
  destruct (binomial_run_nat _ _ _ _ _ _ _ _ _ _ H)
    as (n & -> & Hn & _ & _ & _ & _ & _ & Hprob & _ & Hinv & Hterm & Hprice).
  pose proof (values_nonneg _ _ _ _ _ _ _ (crr_discount_pos maturity rate (Z.of_nat n)) Hprob
                _ _ _ Hinv Hterm) as Hall.
  split.
  - rewrite Hprice. apply Hall; lia.
  - intros s j Hs Hj. apply Hall; lia.
Qed.

Lemma binomial_values_nonneg_witness :
  exists res, binomial_option_price 100 100 1 0 (2 / 10) 2 "put" true 0 = Ok res /\
              0 <= price res.
Proof.
  destruct (binomial_runs_at "put" true (or_intror eq_refl)) as (res & H).
  exists res. split; [exact H|].
  exact (proj1 (binomial_values_nonneg _ _ _ _ _ _ _ _ _ res H)).
Defined.

(** X2: in an American run, every node is worth at least the exercise
    value of its asset price. *)
Theorem american_above_exercise spot strike maturity rate volatility steps option_type
    dividend res :
  binomial_option_price spot strike maturity rate volatility steps option_type true
    dividend = Ok res ->
  forall s j, (Z.of_nat s <= steps)%Z -> (j <= s)%nat ->
    exercise_value option_type strike (nth j (nth s (asset_prices res) []) 0) <=
    nth j (nth s (option_values res) []) 0.
Proof.
  intros H.
  destruct (binomial_run_nat _ _ _ _ _ _ _ _ _ _ H)
    as (n & -> & Hn & _ & _ & _ & _ & _ & Hprob & Hasset & Hinv & Hterm & _).
  intros s j Hs Hj. rewrite Hasset, build_asset_prices_nth, lattice_level_nth by lia.
  apply (american_exercise_bound _ _ _ _ _ _ _ _ _ Hinv Hterm); lia.
Qed.

Lemma american_above_exercise_witness :
  exists res, binomial_option_price 100 100 1 0 (2 / 10) 2 "put" true 0 = Ok res /\
    exercise_value "put" 100 (nth 0 (nth 1 (asset_prices res) []) 0) <=
    nth 0 (nth 1 (option_values res) []) 0.
Proof.
  destruct (binomial_runs_at "put" true (or_intror eq_refl)) as (res & H).
  exists res. split; [exact H|].
  apply (american_above_exercise _ _ _ _ _ _ _ _ res H); lia.
Defined.

(** X3: with the same inputs, the American lattice dominates the European
    one node by node, and the American price is at least the European price. *)
Theorem american_at_least_european spot strike maturity rate volatility steps option_type
    dividend a e :
  binomial_option_price spot strike maturity rate volatility steps option_type true
    dividend = Ok a ->
  binomial_option_price spot strike maturity rate volatility steps option_type false
    dividend = Ok e ->
  price e <= price a /\
  forall s j, (Z.of_nat s <= steps)%Z -> (j <= s)%nat ->
    nth j (nth s (option_values e) []) 0 <= nth j (nth s (option_values a) []) 0.
Proof.
  intros Ha He.
  destruct (binomial_run_nat _ _ _ _ _ _ _ _ _ _ Ha)
    as (n & -> & Hn & _ & _ & _ & _ & _ & Hprob & _ & Hinva & Hterma & Hpa).
  destruct (binomial_run_nat _ _ _ _ _ _ _ _ _ _ He)
    as (n' & Hnn & _ & _ & _ & _ & _ & _ & _ & _ & Hinve & Hterme & Hpe).
  apply Nat2Z.inj in Hnn. subst n'.
  pose proof (american_dominates _ _ _ _ _ _ _ (crr_discount_pos maturity rate (Z.of_nat n))
                Hprob _ _ _ Hinva Hterma Hinve Hterme) as Hall.
  split.
  - rewrite Hpa, Hpe. apply Hall; lia.
  - intros s j Hs Hj. apply Hall; lia.
Qed.

Lemma american_at_least_european_witness :
  exists a e,
    binomial_option_price 100 100 1 0 (2 / 10) 2 "put" true 0 = Ok a /\
    binomial_option_price 100 100 1 0 (2 / 10) 2 "put" false 0 = Ok e /\
    price e <= price a.
Proof.
  destruct (binomial_runs_at "put" true (or_intror eq_refl)) as (a & Ha).
  destruct (binomial_runs_at "put" false (or_intror eq_refl)) as (e & He).
  exists a, e. split; [exact Ha|]. split; [exact He|].
  exact (proj1 (american_at_least_european _ _ _ _ _ _ _ _ a e Ha He)).
Defined.

(** X4: put-call parity of the European lattice: a call and a put run on the
    same inputs differ in price by exactly
    [spot * exp(-dividend * maturity) - strike * exp(-rate * maturity)]. *)
Theorem european_put_call_parity spot strike maturity rate volatility steps dividend
    call put :
  binomial_option_price spot strike maturity rate volatility steps "call" false
    dividend = Ok call ->
  binomial_option_price spot strike maturity rate volatility steps "put" false
    dividend = Ok put ->
  price call - price put =
  spot * exp (- dividend * maturity) - strike * exp (- rate * maturity).
Proof.
  intros Hc Hp.
  destruct (binomial_run_nat _ _ _ _ _ _ _ _ _ _ Hc)
    as (n & -> & Hn & _ & _ & _ & _ & Hud & _ & _ & Hinvc & Htermc & Hpc).
  destruct (binomial_run_nat _ _ _ _ _ _ _ _ _ _ Hp)
    as (n' & Hnn & _ & _ & _ & _ & _ & _ & _ & _ & Hinvp & Htermp & Hpp).
  apply Nat2Z.inj in Hnn. subst n'.
  rewrite Hpc, Hpp.
  rewrite (european_parity_nodes _ _ _ _ _ _ _ _
             (crr_expected_move maturity rate volatility (Z.of_nat n) dividend Hud)
             _ _ Hinvc Htermc Hinvp Htermp 0 0) by lia.
  rewrite !Nat.sub_0_r, crr_discount_growth. unfold crr_discount.
  rewrite !exp_over_steps by exact Hn. cbn [pow]. ring.
Qed.

Lemma european_put_call_parity_witness :
  exists call put,
    binomial_option_price 100 100 1 0 (2 / 10) 2 "call" false 0 = Ok call /\
    binomial_option_price 100 100 1 0 (2 / 10) 2 "put" false 0 = Ok put /\
    price call - price put = 100 * exp (- 0 * 1) - 100 * exp (- 0 * 1).
Proof.
  destruct (binomial_runs_at "call" false (or_introl eq_refl)) as (c & Hc).
  destruct (binomial_runs_at "put" false (or_intror eq_refl)) as (p & Hp).
  exists c, p. split; [exact Hc|]. split; [exact Hp|].
  exact (european_put_call_parity _ _ _ _ _ _ _ c p Hc Hp).
Defined.

(** X5: without dividend and with a non-negative rate, early exercise of a
    call never pays: the American and European call runs produce the same
    option values, hence the same price. *)
Theorem american_call_without_dividend spot strike maturity rate volatility steps a e :
  0 <= rate ->
  binomial_option_price spot strike maturity rate volatility steps "call" true 0 = Ok a ->
  binomial_option_price spot strike maturity rate volatility steps "call" false 0 = Ok e ->
  option_values a = option_values e /\ price a = price e.
Proof.
  intros Hr Ha He.
  destruct (binomial_run_nat _ _ _ _ _ _ _ _ _ _ Ha)
    as (n & -> & Hn & _ & Hstrike & Hmat & _ & Hud & Hprob & _ & Hinva & Hterma & Hpa).
  destruct (binomial_run_nat _ _ _ _ _ _ _ _ _ _ He)
    as (n' & Hnn & _ & _ & _ & _ & _ & _ & _ & _ & Hinve & Hterme & Hpe).
  apply Nat2Z.inj in Hnn. subst n'.
  set (discount := crr_discount maturity rate (Z.of_nat n)) in *.
  set (probability := crr_probability maturity rate volatility (Z.of_nat n) 0) in *.
  set (up := crr_up maturity volatility (Z.of_nat n)) in *.
  set (down := crr_down maturity volatility (Z.of_nat n)) in *.
  assert (Hdisc : 0 < discount) by apply crr_discount_pos.
  assert (Hdle : discount <= 1) by (apply crr_discount_le_1; assumption).
  assert (Hone : discount * exp ((rate - 0) * crr_dt maturity (Z.of_nat n)) = 1).
  { unfold discount. rewrite crr_discount_growth. rewrite <- exp_0. f_equal. ring. }
  (* the European call is worth at least its exercise value at every node *)
  assert (Hbound : forall s j, (s <= n)%nat -> (j <= s)%nat ->
            exercise_value "call" strike (spot * up ^ j * down ^ (s - j)) <=
            nth j (nth s (option_values e) []) 0).
  { intros s j Hs Hj.
    pose proof (european_call_lower_bound _ _ _ _ _ _ _ Hdisc Hprob _
                  (crr_expected_move maturity rate volatility (Z.of_nat n) 0 Hud)
                  _ Hinve Hterme s j Hs Hj) as Hlow.
    fold up down in Hlow. rewrite Hone, pow1 in Hlow.
    pose proof (pow_le_one discount (n - s) ltac:(lra)) as Hk.
    pose proof (values_nonneg _ _ _ _ _ _ _ Hdisc Hprob _ _ _ Hinve Hterme s j Hs Hj).
    unfold exercise_value. cbn [String.eqb Ascii.eqb Bool.eqb]. rewrite py_max_Rmax.
    apply Rmax_lub; [nra | assumption]. }
  assert (Hnode : forall s j, (s <= n)%nat -> (j <= s)%nat ->
            nth j (nth s (option_values a) []) 0 = nth j (nth s (option_values e) []) 0).
  { apply downward_levels.
    - intros j Hj. rewrite Hterma, Hterme. reflexivity.
    - intros s Hs IH j Hj.
      pose proof (Hbound s j ltac:(lia) Hj) as Hb.
      rewrite (value_inner _ _ _ _ _ _ _ _ _ _ Hinve s j Hs Hj) in Hb |- *.
      rewrite (value_inner _ _ _ _ _ _ _ _ _ _ Hinva s j Hs Hj).
      cbv beta iota zeta in Hb |- *.
      rewrite !IH by lia. apply Rmax_left. exact Hb. }
  assert (Hlevels : option_values a = option_values e).
  { destruct Hinva as (Hla & Hwa & _). destruct Hinve as (Hle & Hwe & _).
    apply nth_ext with (d := []) (d' := []); [congruence|].
    intros s Hs. rewrite Hla in Hs.
    apply nth_ext with (d := 0) (d' := 0).
    - rewrite Hwa, Hwe by lia. reflexivity.
    - intros j Hj. rewrite Hwa in Hj by lia. apply Hnode; lia. }
  split; [exact Hlevels|]. rewrite Hpa, Hpe, Hlevels. reflexivity.
Qed.

Lemma american_call_without_dividend_witness :
  exists a e,
    binomial_option_price 100 100 1 0 (2 / 10) 2 "call" true 0 = Ok a /\
    binomial_option_price 100 100 1 0 (2 / 10) 2 "call" false 0 = Ok e /\
    price a = price e.
Proof.
  destruct (binomial_runs_at "call" true (or_introl eq_refl)) as (a & Ha).
  destruct (binomial_runs_at "call" false (or_introl eq_refl)) as (e & He).
  exists a, e. split; [exact Ha|]. split; [exact He|].
  exact (proj2 (american_call_without_dividend _ _ _ _ _ _ a e (Rle_refl 0) Ha He)).
Defined.

(** X6: every asset price of the lattice of a successful run is positive. *)
Theorem asset_prices_positive spot strike maturity rate volatility steps option_type
    american dividend res :
  binomial_option_price spot strike maturity rate volatility steps option_type american
    dividend = Ok res ->
  forall s j, (Z.of_nat s <= steps)%Z -> (j <= s)%nat ->
    0 < nth j (nth s (asset_prices res) []) 0.
Proof.
  intros H.
  destruct (binomial_run_nat _ _ _ _ _ _ _ _ _ _ H)
    as (n & -> & Hn & Hspot & _ & _ & _ & _ & _ & Hasset & _).
  intros s j Hs Hj. rewrite Hasset, build_asset_prices_nth, lattice_level_nth by lia.
  pose proof (crr_down_pos maturity volatility (Z.of_nat n)).
  assert (0 < crr_up maturity volatility (Z.of_nat n)) by apply exp_pos.
  apply Rmult_lt_0_compat; [apply Rmult_lt_0_compat|]; try apply pow_lt; assumption.
Qed.

Lemma asset_prices_positive_witness :
  exists res, binomial_option_price 100 100 1 0 (2 / 10) 2 "call" false 0 = Ok res /\
              0 < nth 1 (nth 2 (asset_prices res) []) 0.
Proof.
  destruct (binomial_runs_at "call" false (or_introl eq_refl)) as (res & H).
  exists res. split; [exact H|].
  apply (asset_prices_positive _ _ _ _ _ _ _ _ _ res H); lia.
Defined.

(** X7: the asset lattice recombines: from node [j] of level [s], an up move
    leads to node [j+1] and a down move to node [j] of level [s+1] (the price
    times [up] or [down]), and an up move followed by a down move returns to
    the same price two levels later. *)
Theorem asset_lattice_recombines spot strike maturity rate volatility steps option_type
    american dividend res :
  binomial_option_price spot strike maturity rate volatility steps option_type american
    dividend = Ok res ->
  forall s j, (Z.of_nat s + 1 <= steps)%Z -> (j <= s)%nat ->
    nth (S j) (nth (S s) (asset_prices res) []) 0 =
      nth j (nth s (asset_prices res) []) 0 * crr_up maturity volatility steps /\
    nth j (nth (S s) (asset_prices res) []) 0 =
      nth j (nth s (asset_prices res) []) 0 * crr_down maturity volatility steps /\
    ((Z.of_nat s + 2 <= steps)%Z ->
     nth (S j) (nth (S (S s)) (asset_prices res) []) 0 = nth j (nth s (asset_prices res) []) 0).
Proof.
  intros H.
  destruct (binomial_run_nat _ _ _ _ _ _ _ _ _ _ H)
    as (n & -> & Hn & _ & _ & _ & _ & _ & _ & Hasset & _).
  intros s j Hs Hj. rewrite Hasset.
  pose proof (crr_up_down maturity volatility (Z.of_nat n)) as Hud.
  set (up := crr_up maturity volatility (Z.of_nat n)) in *.
  set (down := crr_down maturity volatility (Z.of_nat n)) in *.
  split; [|split; [|intros Hs2]];
    rewrite !build_asset_prices_nth by lia; rewrite !lattice_level_nth by lia.
  - replace (S s - S j)%nat with (s - j)%nat by lia. cbn [pow]. ring.
  - replace (S s - j)%nat with (S (s - j)) by lia. cbn [pow]. ring.
  - replace (S (S s) - S j)%nat with (S (s - j)) by lia.
    cbn [pow]. replace (spot * (up * up ^ j) * (down * down ^ (s - j))) with
      (spot * up ^ j * down ^ (s - j) * (up * down)) by ring.
    rewrite Hud. ring.
Qed.

Lemma asset_lattice_recombines_witness :
  exists res, binomial_option_price 100 100 1 0 (2 / 10) 2 "call" false 0 = Ok res /\
    nth 1 (nth 2 (asset_prices res) []) 0 = nth 0 (nth 0 (asset_prices res) []) 0.
Proof.
  destruct (binomial_runs_at "call" false (or_introl eq_refl)) as (res & H).
  exists res. split; [exact H|].
  destruct (asset_lattice_recombines 100 100 1 0 (2 / 10) 2 "call" false 0 res H 0 0
              ltac:(lia) ltac:(lia))
    as (_ & _ & H2).
  apply H2. lia.
Defined.

End BinomialExtras.

(** ** Monte Carlo runs: the paths and payoffs they return *)

Module MonteCarloExtras.
Import MonteCarloOption MonteCarloProofs.

(** One call of [simulate_path] appends [k] prices, the [t]-th one being the
    one before it times [exp(drift + diffusion * draws (pos + t))]. *)
Lemma simulate_path_spec drift diffusion draws (k : nat) price prices pos :
  (0 < List.length prices)%nat -> nth (List.length prices - 1) prices 0 = price ->
  let '(price', prices', pos') := simulate_path drift diffusion draws k price prices pos in
  pos' = (pos + k)%nat /\ List.length prices' = (List.length prices + k)%nat /\
  (forall t, (t < List.length prices)%nat -> nth t prices' 0 = nth t prices 0) /\
  (forall t, (t < k)%nat ->
     nth (List.length prices + t) prices' 0 =
     nth (List.length prices + t - 1) prices' 0 * exp (drift + diffusion * draws (pos + t)%nat)) /\
  price' = nth (List.length prices + k - 1) prices' 0.
Proof.
  revert price prices pos. induction k as [|k IH]; intros price prices pos Hl Hlast;
    cbn [simulate_path].
  - split; [lia|]. split; [lia|]. split; [reflexivity|]. split; [intros; lia|].
    rewrite Nat.add_0_r. symmetry. exact Hlast.
  - set (p' := price * exp (drift + diffusion * draws pos)).
    specialize (IH p' (prices ++ [p']) (S pos)). rewrite last_length in IH.
    replace (S (List.length prices) - 1)%nat with (List.length prices) in IH by lia.
    specialize (IH ltac:(lia) (nth_middle prices [] p' 0)).
    destruct (simulate_path _ _ _ k _ _ _) as [[pr' prs'] pos''].
    destruct IH as (Hpos & Hlen & Hpre & Hstep & Hprice).
    split; [lia|]. split; [lia|].
    split; [intros t Ht; rewrite Hpre by lia; apply app_nth1; exact Ht|].
    split.
    + intros [|t] Ht.
      * rewrite !Nat.add_0_r. rewrite (Hpre (List.length prices)) by lia.
        rewrite (Hpre (List.length prices - 1)%nat) by lia.
        rewrite nth_middle, app_nth1, Hlast by lia. reflexivity.
      * replace (List.length prices + S t)%nat with (S (List.length prices) + t)%nat by lia.
        replace (pos + S t)%nat with (S pos + t)%nat by lia.
        apply Hstep. lia.
    + rewrite Hprice. f_equal. lia.
Qed.

(** [simulate_paths] appends one path per iteration: the [i]-th new path
    starts at [spot], moves with draws [pos + i * steps], ... and its
    payoff is the [i]-th new payoff. *)
Lemma simulate_paths_spec drift diffusion draws payoff (m : nat) spot (steps : nat)
    sp pf pos sp' pf' pos' :
  simulate_paths drift diffusion draws payoff m spot steps sp pf pos = Ok (sp', pf', pos') ->
  pos' = (pos + m * steps)%nat /\
  List.length sp' = (List.length sp + m)%nat /\ List.length pf' = (List.length pf + m)%nat /\
  (forall i, (i < List.length sp)%nat -> nth i sp' [] = nth i sp []) /\
  (forall i, (i < List.length pf)%nat -> nth i pf' 0 = nth i pf 0) /\
  forall i, (i < m)%nat ->
    List.length (nth (List.length sp + i) sp' []) = S steps /\
    nth 0 (nth (List.length sp + i) sp' []) 0 = spot /\
    (forall t, (t < steps)%nat ->
       nth (S t) (nth (List.length sp + i) sp' []) 0 =
       nth t (nth (List.length sp + i) sp' []) 0 *
       exp (drift + diffusion * draws (pos + i * steps + t)%nat)) /\
    payoff (nth steps (nth (List.length sp + i) sp' []) 0) (nth (List.length sp + i) sp' []) =
      Ok (nth (List.length pf + i) pf' 0).
Proof.
  revert sp pf pos. induction m as [|m IH]; intros sp pf pos H; cbn [simulate_paths] in H.
  - injection H as <- <- <-. split; [lia|]. split; [lia|]. split; [lia|].
    split; [reflexivity|]. split; [reflexivity|]. intros; lia.
  - pose proof (simulate_path_spec drift diffusion draws steps spot [spot] pos
                  ltac:(cbn; lia) eq_refl) as Hp.
    destruct (simulate_path _ _ _ steps spot [spot] pos) as [[price prices] pos1].
    cbn [List.length] in Hp. destruct Hp as (Hpos1 & Hlen1 & Hpre1 & Hstep1 & Hprice1).
    destruct (payoff price prices) as [v|e] eqn:Hpay; cbn [bind] in H; [|discriminate H].
    destruct (IH _ _ _ H) as (Hpos & Hl1 & Hl2 & Hsp & Hpf & Hnew).
    rewrite length_app in Hl1, Hl2. cbn [List.length] in Hl1, Hl2.
    assert (Hsp0 : nth (List.length sp) sp' [] = prices)
      by (rewrite Hsp by (rewrite length_app; cbn; lia); apply nth_middle).
    assert (Hpf0 : nth (List.length pf) pf' 0 = v)
      by (rewrite Hpf by (rewrite length_app; cbn; lia); apply nth_middle).
    split; [lia|]. split; [lia|]. split; [lia|].
    split; [intros i Hi; rewrite Hsp by (rewrite length_app; lia); apply app_nth1; exact Hi|].
    split; [intros i Hi; rewrite Hpf by (rewrite length_app; lia); apply app_nth1; exact Hi|].
    intros [|i] Hi.
    + rewrite !Nat.add_0_r, Hsp0, Hpf0. split; [lia|]. split; [apply (Hpre1 0%nat); lia|].
      split.
      * intros t Ht. pose proof (Hstep1 t Ht) as Hs. cbn [Nat.add Nat.mul] in Hs |- *.
        replace (S t - 1)%nat with t in Hs by lia. exact Hs.
      * rewrite <- Hpay. f_equal. rewrite Hprice1. f_equal. lia.
    + destruct (Hnew i ltac:(lia)) as (Hl & H0 & Hs & Hv).
      rewrite !length_app in Hl, H0, Hs, Hv. rewrite length_app in Hv. cbn [List.length] in Hl, H0, Hs, Hv.
      replace (List.length sp + S i)%nat with (List.length sp + 1 + i)%nat by lia.
      replace (List.length pf + S i)%nat with (List.length pf + 1 + i)%nat by lia.
      split; [exact Hl|]. split; [exact H0|]. split; [|exact Hv].
      intros t Ht. rewrite Hs by exact Ht.
      replace (pos1 + i * steps + t)%nat with (pos + S i * steps + t)%nat
        by (rewrite Hpos1; cbn [Nat.mul]; lia).
      reflexivity.
Qed.

(** The run, read through [simulate_paths_spec]. *)
Lemma monte_carlo_paths spot maturity rate volatility steps paths payoff draws res :
  monte_carlo_option_price spot maturity rate volatility steps paths payoff draws = Ok res ->
  0 < spot /\ 0 < maturity /\ (0 < steps)%Z /\ (0 < paths)%Z /\ 0 <= volatility /\
  List.length (MonteCarloOption.paths res) = Z.to_nat paths /\
  List.length (payoffs res) = Z.to_nat paths /\
  price res = exp (- rate * maturity) * py_sum (payoffs res) / INR (List.length (payoffs res)) /\
  forall i, (i < Z.to_nat paths)%nat ->
    List.length (nth i (MonteCarloOption.paths res) []) = S (Z.to_nat steps) /\
    nth 0 (nth i (MonteCarloOption.paths res) []) 0 = spot /\
    (forall t, (t < Z.to_nat steps)%nat ->
       nth (S t) (nth i (MonteCarloOption.paths res) []) 0 =
       nth t (nth i (MonteCarloOption.paths res) []) 0 *
       exp ((rate - 0.5 * volatility * volatility) * (maturity / IZR steps) +
            volatility * sqrt (maturity / IZR steps) * draws (i * Z.to_nat steps + t)%nat)) /\
    payoff (nth (Z.to_nat steps) (nth i (MonteCarloOption.paths res) []) 0)
           (nth i (MonteCarloOption.paths res) []) = Ok (nth i (payoffs res) 0).
Proof.
  intros H.
  destruct (monte_carlo_ok_inv _ _ _ _ _ _ _ _ _ H)
    as (Hspot & Hmat & Hsteps & Hpaths & Hvol & (pos & Hrun) & Hprice).
  destruct (simulate_paths_spec _ _ _ _ _ _ _ _ _ _ _ _ _ Hrun)
    as (_ & Hl1 & Hl2 & _ & _ & Hnew).
  cbn [List.length Nat.add] in Hl1, Hl2, Hnew.
  do 5 (split; [assumption|]). split; [exact Hl1|]. split; [exact Hl2|].
  split; [exact Hprice|]. exact Hnew.
Qed.

Lemma fold_right_bounds (a b : R) (l : list R) :
  Forall (fun v => a <= v <= b) l ->
  INR (List.length l) * a <= fold_right Rplus 0 l <= INR (List.length l) * b.
Proof.
  induction 1 as [|v l Hv _ IH]; cbn [fold_right List.length]; [cbn; lra|].
  rewrite S_INR. lra.
Qed.

(** X8: in a successful run, path [i] has [steps + 1] prices, starts at
    [spot], and moves from price [t] to price [t + 1] by the factor
    [exp(drift + diffusion * z)] where [z] is draw number [i * steps + t]:
    the draws are consumed path by path, step by step. *)
Theorem paths_follow_draws spot maturity rate volatility steps paths payoff draws res :
  monte_carlo_option_price spot maturity rate volatility steps paths payoff draws = Ok res ->
  forall i, (i < Z.to_nat paths)%nat ->
    List.length (nth i (MonteCarloOption.paths res) []) = S (Z.to_nat steps) /\
    nth 0 (nth i (MonteCarloOption.paths res) []) 0 = spot /\
    forall t, (t < Z.to_nat steps)%nat ->
      nth (S t) (nth i (MonteCarloOption.paths res) []) 0 =
      nth t (nth i (MonteCarloOption.paths res) []) 0 *
      exp ((rate - 0.5 * volatility * volatility) * (maturity / IZR steps) +
           volatility * sqrt (maturity / IZR steps) * draws (i * Z.to_nat steps + t)%nat).
Proof.
  intros H i Hi.
  destruct (monte_carlo_paths _ _ _ _ _ _ _ _ _ H) as (_ & _ & _ & _ & _ & _ & _ & _ & Hnew).
  destruct (Hnew i Hi) as (Hl & H0 & Hs & _).
  split; [exact Hl|]. split; [exact H0 | exact Hs].
Qed.

(** X9: in a successful run, payoff [i] is the payoff callable applied to
    the last price of path [i] and to the whole path [i]. *)
Theorem payoffs_match_paths spot maturity rate volatility steps paths payoff draws res :
  monte_carlo_option_price spot maturity rate volatility steps paths payoff draws = Ok res ->
  forall i, (i < Z.to_nat paths)%nat ->
    payoff (nth (Z.to_nat steps) (nth i (MonteCarloOption.paths res) []) 0)
           (nth i (MonteCarloOption.paths res) []) = Ok (nth i (payoffs res) 0).
Proof.
  intros H i Hi.
  destruct (monte_carlo_paths _ _ _ _ _ _ _ _ _ H) as (_ & _ & _ & _ & _ & _ & _ & _ & Hnew).
  apply (Hnew i Hi).
Qed.

(** X10: every price of every simulated path is positive. *)
Theorem path_prices_positive spot maturity rate volatility steps paths payoff draws res :
  monte_carlo_option_price spot maturity rate volatility steps paths payoff draws = Ok res ->
  Forall (Forall (fun x => 0 < x)) (MonteCarloOption.paths res).
Proof.
  intros H.
  destruct (monte_carlo_paths _ _ _ _ _ _ _ _ _ H)
    as (Hspot & _ & _ & _ & _ & Hl & _ & _ & Hnew).
  apply Forall_forall. intros path Hin.
  destruct (In_nth _ _ [] Hin) as (i & Hi & <-). rewrite Hl in Hi.
  destruct (Hnew i Hi) as (Hlen & H0 & Hs & _).
  apply Forall_forall. intros x Hx.
  destruct (In_nth _ _ 0 Hx) as (t & Ht & <-). rewrite Hlen in Ht.
  clear Hx Hin. induction t as [|t IHt].
  - rewrite H0. exact Hspot.
  - rewrite Hs by lia. apply Rmult_lt_0_compat; [apply IHt; lia | apply exp_pos].
Qed.

(** X11: if every value the payoff callable returns lies in [[a, b]], the
    price of a successful run lies in
    [[exp(-rate * maturity) * a, exp(-rate * maturity) * b]]. *)
Theorem price_within_payoff_bounds spot maturity rate volatility steps paths payoff draws
    res (a b : R) :
  (forall p l v, payoff p l = Ok v -> a <= v <= b) ->
  monte_carlo_option_price spot maturity rate volatility steps paths payoff draws = Ok res ->
  exp (- rate * maturity) * a <= price res <= exp (- rate * maturity) * b.
Proof.
  intros Hbound H.
  destruct (monte_carlo_paths _ _ _ _ _ _ _ _ _ H)
    as (_ & _ & _ & Hpaths & _ & _ & Hl & Hprice & Hnew).
  assert (Hall : Forall (fun v => a <= v <= b) (payoffs res)).
  { apply Forall_forall. intros v Hin.
    destruct (In_nth _ _ 0 Hin) as (i & Hi & <-). rewrite Hl in Hi.
    destruct (Hnew i Hi) as (_ & _ & _ & Hv). exact (Hbound _ _ _ Hv). }
  pose proof (fold_right_bounds a b _ Hall) as Hs.
  rewrite <- py_sum_fold_right in Hs. rewrite Hprice.
  assert (Hn : 0 < INR (List.length (payoffs res))) by (apply lt_0_INR; lia).
  pose proof (exp_pos (- rate * maturity)) as Hd.
  set (n := INR (List.length (payoffs res))) in *.
  set (D := exp (- rate * maturity)) in *.
  set (S := py_sum (payoffs res)) in *.
  assert (Hmean : a <= S / n <= b).
  { split; apply (Rmult_le_reg_r n); try exact Hn; unfold Rdiv;
      rewrite Rmult_assoc, Rinv_l, Rmult_1_r by lra; lra. }
  replace (D * S / n) with (D * (S / n)) by (unfold Rdiv; ring).
  split; apply Rmult_le_compat_l; lra.
Qed.

(** X12: with zero volatility and the payoff that returns the terminal
    price, the discounted estimate is exactly [spot] (in exact arithmetic),
    whatever the draws. *)
Theorem zero_volatility_forward spot maturity rate steps paths draws res :
  monte_carlo_option_price spot maturity rate 0 steps paths (fun p _ => Ok p) draws = Ok res ->
  price res = spot.
Proof.
  intros H.
  destruct (monte_carlo_paths _ _ _ _ _ _ _ _ _ H)
    as (Hspot & Hmat & Hsteps & Hpaths & _ & _ & Hl & Hprice & Hnew).
  set (g := exp (rate * (maturity / IZR steps))).
  assert (Hpath : forall i t, (i < Z.to_nat paths)%nat -> (t <= Z.to_nat steps)%nat ->
            nth t (nth i (MonteCarloOption.paths res) []) 0 = spot * g ^ t).
  { intros i t Hi Ht. destruct (Hnew i Hi) as (_ & H0 & Hs & _).
    induction t as [|t IHt].
    - rewrite H0. cbn [pow]. ring.
    - rewrite Hs by lia. rewrite IHt by lia. cbn [pow].
      match goal with |- context [exp ?x] => replace (exp x) with g end; [ring|].
      unfold g. f_equal. ring. }
  assert (Hterm : spot * g ^ Z.to_nat steps = spot * exp (rate * maturity)).
  { unfold g. f_equal. rewrite BinomialExtras.exp_pow. f_equal.
    rewrite INR_IZR_INZ, Z2Nat.id by lia. field. apply not_0_IZR. lia. }
  assert (Hall : Forall (fun v => v = spot * exp (rate * maturity)) (payoffs res)).
  { apply Forall_forall. intros v Hin.
    destruct (In_nth _ _ 0 Hin) as (i & Hi & <-). rewrite Hl in Hi.
    destruct (Hnew i Hi) as (_ & _ & _ & Hv). injection Hv as <-.
    rewrite Hpath by lia. exact Hterm. }
  pose proof (fold_right_bounds (spot * exp (rate * maturity)) (spot * exp (rate * maturity))
                (payoffs res) (Forall_impl _ (fun v Hv => conj (Req_le _ _ (eq_sym Hv))
                                                          (Req_le _ _ Hv)) Hall)) as Hs.
  rewrite <- py_sum_fold_right in Hs.
  assert (Hsum : py_sum (payoffs res) =
                 INR (List.length (payoffs res)) * (spot * exp (rate * maturity))) by lra.
  rewrite Hprice, Hsum.
  assert (Hn : 0 < INR (List.length (payoffs res))) by (apply lt_0_INR; lia).
  replace (- rate * maturity) with (- (rate * maturity)) by ring.
  assert (exp (rate * maturity) <> 0) by apply Rgt_not_eq, exp_pos.
  rewrite exp_Ropp. field. repeat split; first [assumption | lra].
Qed.

Lemma mc_identity_runs (volatility : R) :
  0 <= volatility ->
  exists res, monte_carlo_option_price 100 1 (1 / 20) volatility 2 3 (fun p _ => Ok p)
                (fun k => INR k / 10) = Ok res.
Proof.
  intros Hvol. apply monte_carlo_runs; try lra; try lia.
  intros p l. exists p. reflexivity.
Qed.

Lemma paths_follow_draws_witness :
  exists res,
    monte_carlo_option_price 100 1 (1 / 20) (2 / 10) 2 3 (fun p _ => Ok p)
      (fun k => INR k / 10) = Ok res /\
    nth 2 (nth 1 (MonteCarloOption.paths res) []) 0 =
    nth 1 (nth 1 (MonteCarloOption.paths res) []) 0 *
    exp ((1 / 20 - 0.5 * (2 / 10) * (2 / 10)) * (1 / IZR 2) +
         2 / 10 * sqrt (1 / IZR 2) * (INR 3 / 10)).
Proof.
  destruct (mc_identity_runs (2 / 10) ltac:(lra)) as (res & H).
  exists res. split; [exact H|].
  destruct (paths_follow_draws _ _ _ _ _ _ _ _ res H 1 ltac:(cbn; lia)) as (_ & _ & Hs).
  apply (Hs 1%nat). cbn. lia.
Defined.

Lemma payoffs_match_paths_witness :
  exists res,
    monte_carlo_option_price 100 1 (1 / 20) (2 / 10) 2 3 (fun p _ => Ok p)
      (fun k => INR k / 10) = Ok res /\
    Ok (nth 2 (nth 2 (MonteCarloOption.paths res) []) 0) = Ok (nth 2 (payoffs res) 0).
Proof.
  destruct (mc_identity_runs (2 / 10) ltac:(lra)) as (res & H).
  exists res. split; [exact H|].
  apply (payoffs_match_paths _ _ _ _ _ _ _ _ res H 2). cbn. lia.
Defined.

Lemma path_prices_positive_witness :
  exists res,
    monte_carlo_option_price 100 1 (1 / 20) (2 / 10) 2 3 (fun p _ => Ok p)
      (fun k => INR k / 10) = Ok res /\
    Forall (Forall (fun x => 0 < x)) (MonteCarloOption.paths res).
Proof.
  destruct (mc_identity_runs (2 / 10) ltac:(lra)) as (res & H).
  exists res. split; [exact H|].
  exact (path_prices_positive _ _ _ _ _ _ _ _ res H).
Defined.

Lemma price_within_payoff_bounds_witness :
  exists res,
    monte_carlo_option_price 100 1 (1 / 20) (2 / 10) 2 3 (fun _ _ => Ok (1 / 2))
      (fun k => INR k / 10) = Ok res /\
    exp (- (1 / 20) * 1) * 0 <= price res <= exp (- (1 / 20) * 1) * 1.
Proof.
  destruct (monte_carlo_runs 100 1 (1 / 20) (2 / 10) 2 3 (fun _ _ => Ok (1 / 2))
              (fun k => INR k / 10) ltac:(lra) ltac:(lra) ltac:(lia) ltac:(lia) ltac:(lra)
              (fun _ _ => ex_intro _ (1 / 2) eq_refl)) as (res & H).
  exists res. split; [exact H|].
  refine (price_within_payoff_bounds _ _ _ _ _ _ _ _ res 0 1 _ H).
  intros p l v Hv. injection Hv as <-. lra.
Defined.

Lemma zero_volatility_forward_witness :
  exists res,
    monte_carlo_option_price 100 1 (1 / 20) 0 2 3 (fun p _ => Ok p)
      (fun k => INR k / 10) = Ok res /\ price res = 100.
Proof.
  destruct (mc_identity_runs 0 ltac:(lra)) as (res & H).
  exists res. split; [exact H|].
  exact (zero_volatility_forward _ _ _ _ _ _ res H).
Defined.

End MonteCarloExtras.

(** ** Payoff expressions: what the validator lets through *)

Module PayoffExtras.
Import PayoffExpression PayoffProofs.

Lemma bind_ok_inv {A B : Type} (m : Result A) (k : A -> Result B) (b : B) :
  bind m k = Ok b -> exists a, m = Ok a /\ k a = Ok b.
Proof. destruct m as [a|e]; cbn [bind]; [eauto | discriminate]. Qed.

Lemma bind_errs {A B : Type} (Q : PyError -> Prop) (m : Result A) (k : A -> Result B) :
  (forall err, m = Err err -> Q err) -> (forall a err, k a = Err err -> Q err) ->
  forall err, bind m k = Err err -> Q err.
Proof.
  intros Hm Hk err. destruct m as [a|e]; cbn [bind]; [apply Hk|].
  intros H. injection H as <-. apply Hm. reflexivity.
Qed.

Lemma visit_each_ok {A : Type} (v : A -> Result unit) (l : list A) :
  visit_each v l = Ok tt -> Forall (fun x => v x = Ok tt) l.
Proof.
  induction l as [|x l IH]; cbn [visit_each]; intros H; [constructor|].
  apply bind_ok_inv in H as ([] & Hx & Hl). constructor; [exact Hx | apply IH, Hl].
Qed.


Lemma eval_each_errs (Q : PyError -> Prop) (ev : expr -> Result value) (l : list expr) :
  Forall (fun x => forall err, ev x = Err err -> Q err) l ->
  forall err, eval_each ev l = Err err -> Q err.
Proof.
  induction 1 as [|x l Hx _ IH]; cbn [eval_each]; [discriminate|].
  apply bind_errs; [exact Hx | intros v; apply bind_errs; [exact IH | discriminate]].
Qed.



(** The primitives of the evaluator never raise [NameError]. *)
Ltac no_name_error :=
  let err := fresh "err" in
  let H := fresh "H" in
  let id := fresh "id" in
  intros err H id ->;
  unfold binop_value, unaryop_value, compare_values, math_call,
    attribute_value, subscript_value, py_getitem, py_float in H;
  unfold math_attribute in H;
  repeat match type of H with
  | context [if ?c then _ else _] => destruct c
  | context [match ?x with _ => _ end] => destruct x
  end;
  discriminate H.

Lemma bind_no_name {A B : Type} (m : Result A) (k : A -> Result B) :
  (forall err, m = Err err -> forall id, err <> NameError id) ->
  (forall a err, k a = Err err -> forall id, err <> NameError id) ->
  forall err, bind m k = Err err -> forall id, err <> NameError id.
Proof. apply (bind_errs (fun err => forall id, err <> NameError id)). Qed.

Lemma extreme_no_name op cur items :
  forall err, extreme op cur items = Err err -> forall id, err <> NameError id.
Proof.
  revert cur. induction items as [|v rest IH]; intros cur; cbn [extreme]; [discriminate|].
  apply bind_no_name; [no_name_error | intros b; apply IH].
Qed.

Lemma call_value_no_name f args :
  forall err, call_value f args = Err err -> forall id, err <> NameError id.
Proof.
  unfold call_value. destruct f; try (intros err H id ->; discriminate H).
  destruct (String.eqb name "max"); [|destruct (String.eqb name "min"); [|no_name_error]];
    unfold max_min; cbv zeta;
    (destruct args as [|v [|w rest]];
     [intros err H id ->; discriminate H
     | destruct v; try (intros err H id ->; discriminate H);
       destruct vs; try (intros err H id ->; discriminate H); apply extreme_no_name
     | destruct v; apply extreme_no_name]).
Qed.

(** Membership in a concatenation, kept folded so that [math_public] is
    never unfolded. *)
Lemma mem_string_app s l1 l2 :
  mem_string s (l1 ++ l2) = (mem_string s l1 || mem_string s l2)%bool.
Proof. apply existsb_app. Qed.

Lemma lookup_name_no_name price path id :
  visit_Name id = Ok tt ->
  forall err, lookup_name price path id = Err err -> forall x, err <> NameError x.
Proof.
  unfold visit_Name, lookup_name. intros Hv.
  destruct (String.eqb id "price") eqn:E1; [discriminate|].
  destruct (String.eqb id "path") eqn:E2; [discriminate|].
  destruct (mem_string id math_public) eqn:E3; [no_name_error|].
  destruct (mem_string id _helper_functions) eqn:E4; [discriminate|].
  exfalso.
  assert (Ha : mem_string id _allowed_names = false).
  { unfold _allowed_names, mem_string. cbn [existsb]. rewrite E1, E2. reflexivity. }
  assert (Hf : mem_string id _allowed_functions = false).
  { unfold _allowed_functions. rewrite mem_string_app, E3, E4. reflexivity. }
  rewrite Ha, Hf in Hv. discriminate Hv.
Qed.

Lemma eval_no_name_error price path :
  forall e, visit e = Ok tt ->
  forall err, eval price path e = Err err -> forall id, err <> NameError id.
Proof.
  fix IH 1. intros e Hv.
  destruct e as [op values | l op r | op operand | test body orelse | l ops cs
                | func args keywords | c | value attr ctx | value sl ctx | id ctx
                | elts ctx | elts ctx | lo up st | body | value ctx | target value
                | keys values | elts];
    cbn [visit expr_allowed negb] in Hv; cbn [eval];
    try (intros err H ? ->; discriminate H).
  - (* BoolOp *)
    cbn [visit_boolop bind] in Hv.
    induction values as [|x rest IHv]; cbn [eval_boolop];
      [intros err H ? ->; discriminate H|].
    cbn [visit_each] in Hv. apply bind_ok_inv in Hv as ([] & Hx & Hrest).
    destruct rest as [|y rest']; [exact (IH x Hx)|].
    apply bind_no_name; [exact (IH x Hx)|]. intros v. cbv zeta.
    destruct op, (truthy v); cbn [negb];
      first [intros err H ? ->; discriminate H | exact (IHv Hrest)].
  - (* BinOp *)
    apply bind_ok_inv in Hv as ([] & Hl & Hv). apply bind_ok_inv in Hv as ([] & _ & Hr).
    apply bind_no_name; [exact (IH l Hl)|]. intros a.
    apply bind_no_name; [exact (IH r Hr)|]. intros b. no_name_error.
  - (* UnaryOp *)
    apply bind_ok_inv in Hv as ([] & _ & Ho).
    apply bind_no_name; [exact (IH operand Ho)|]. intros v. no_name_error.
  - (* IfExp *)
    apply bind_ok_inv in Hv as ([] & Ht & Hv). apply bind_ok_inv in Hv as ([] & Hb & Ho).
    apply bind_no_name; [exact (IH test Ht)|]. intros t.
    destruct (truthy t); [exact (IH body Hb) | exact (IH orelse Ho)].
  - (* Compare *)
    apply bind_ok_inv in Hv as ([] & Hl & Hv). apply bind_ok_inv in Hv as ([] & _ & Hcs).
    apply bind_no_name; [exact (IH l Hl)|]. intros a. clear Hl.
    revert a ops. induction cs as [|c cs' IHc]; intros a ops; cbn [eval_compare];
      [discriminate|].
    cbn [visit_each] in Hcs. apply bind_ok_inv in Hcs as ([] & Hc & Hcs').
    destruct ops as [|op ops']; [discriminate|].
    apply bind_no_name; [exact (IH c Hc)|]. intros r.
    apply bind_no_name; [no_name_error|]. intros [|]; [apply IHc; exact Hcs' | discriminate].
  - (* Call *)
    apply bind_ok_inv in Hv as ([] & _ & Hv). apply bind_ok_inv in Hv as ([] & Hf & Hv).
    apply bind_ok_inv in Hv as ([] & Hargs & _).
    apply bind_no_name; [exact (IH func Hf)|]. intros f.
    apply bind_no_name.
    + apply (eval_each_errs (fun err => forall id, err <> NameError id)). clear - IH Hargs.
      induction args as [|x args' IHa]; constructor;
        cbn [visit_each] in Hargs; apply bind_ok_inv in Hargs as ([] & Hx & Hargs');
        [exact (IH x Hx) | exact (IHa Hargs')].
    + intros vs. destruct keywords; [apply call_value_no_name | intros err H ? ->; discriminate H].
  - (* Attribute *)
    apply bind_ok_inv in Hv as ([] & Hval & _).
    apply bind_no_name; [exact (IH value Hval)|]. intros v. no_name_error.
  - (* Subscript *)
    apply bind_ok_inv in Hv as ([] & Hval & Hv). apply bind_ok_inv in Hv as ([] & Hsl & _).
    apply bind_no_name; [exact (IH value Hval)|]. intros v.
    apply bind_no_name; [exact (IH sl Hsl)|]. intros i. no_name_error.
  - (* Name *)
    apply lookup_name_no_name. exact Hv.
  - (* List *)
    apply bind_ok_inv in Hv as ([] & Helts & _).
    apply bind_no_name; [|discriminate]. apply (eval_each_errs (fun err => forall id, err <> NameError id)). clear - IH Helts.
    induction elts as [|x elts' IHa]; constructor;
      cbn [visit_each] in Helts; apply bind_ok_inv in Helts as ([] & Hx & Helts');
      [exact (IH x Hx) | exact (IHa Helts')].
  - (* Tuple *)
    apply bind_ok_inv in Hv as ([] & Helts & _).
    apply bind_no_name; [|discriminate]. apply (eval_each_errs (fun err => forall id, err <> NameError id)). clear - IH Helts.
    induction elts as [|x elts' IHa]; constructor;
      cbn [visit_each] in Helts; apply bind_ok_inv in Helts as ([] & Hx & Helts');
      [exact (IH x Hx) | exact (IHa Helts')].
Qed.

Lemma eval_compare_bool ev a ops cs r :
  eval_compare ev a ops cs = Ok r -> exists b, r = VBool b.
Proof.
  revert a ops. induction cs as [|c cs IH]; intros a ops; cbn [eval_compare].
  - intros H. injection H as <-. eauto.
  - destruct ops as [|op ops].
    + intros H. injection H as <-. eauto.
    + intros H. apply bind_ok_inv in H as (x & _ & H). apply bind_ok_inv in H as ([|] & _ & H).
      * exact (IH _ _ H).
      * injection H as <-. eauto.
Qed.

(** X13: a payoff compiled by [payoff_from_expression] never raises
    [NameError] when called: every name the validator lets through resolves
    to [price], [path], a function or constant of [math], [max] or [min]. *)
Theorem compiled_payoffs_resolve_names (expression : string) f :
  payoff_from_expression expression = Ok f ->
  forall price path err, f price path = Err err -> forall id, err <> NameError id.
Proof.
  unfold payoff_from_expression.
  destruct (ast_parse expression) as [[body]| |]; [|discriminate|discriminate].
  cbn [visit_mod]. destruct (visit body) as [[]|e] eqn:Hv; cbn [bind]; [|discriminate].
  intros H. injection H as <-. intros price path. cbn [payoff].
  apply bind_no_name; [exact (eval_no_name_error price path body Hv) | intros v].
  no_name_error.
Qed.

Lemma compiled_payoffs_resolve_names_witness :
  exists f, payoff_from_expression "max(price - 100, 0)" = Ok f /\
    forall err, f 120 [] = Err err -> err <> NameError "price".
Proof.
  eexists. split.
  - apply payoff_from_expression_compiled; [exact parse_max_payoff | vm_compute; reflexivity].
  - intros err H. exact (compiled_payoffs_resolve_names "max(price - 100, 0)" _
      (payoff_from_expression_compiled _ _ parse_max_payoff (eq_refl (Ok tt)))
      120 [] err H "price").
Defined.



(** X15: a call whose function is an attribute is never accepted.  For
    [math.f(...)] with [f] an allowed function, the call check passes but the
    visit of its [math] name fails with "Unknown name in payoff expression:
    math"; every other attribute call fails the call check. *)
Theorem attribute_calls_rejected value attr ctx args keywords :
  visit (Call (Attribute value attr ctx) args keywords) =
  Err (ValueError
         (match value with
          | Name id _ =>
              if (String.eqb id "math" && mem_string attr _allowed_functions)%bool
              then "Unknown name in payoff expression: math"
              else "Only math module functions are allowed in calls."
          | _ => "Only math module functions are allowed in calls."
          end)).
Proof.
  cbn [visit expr_allowed negb]. unfold visit_Call_func.
  destruct value; try reflexivity.
  destruct (String.eqb id "math" && mem_string attr _allowed_functions)%bool eqn:E;
    [|reflexivity].
  apply andb_prop in E as [E _]. apply String.eqb_eq in E. subst id.
  cbn [bind visit expr_allowed negb]. vm_compute. reflexivity.
Qed.


(** X17: an expression that is a comparison (such as [price > 100]) is a
    digital payoff: every value its compiled payoff returns is 0 or 1. *)
Theorem comparison_payoffs_are_digital (expression : string) f left ops comparators :
  ast_parse expression = Parsed (Expression (Compare left ops comparators)) ->
  payoff_from_expression expression = Ok f ->
  forall price path v, f price path = Ok v -> v = 0 \/ v = 1.
Proof.
  unfold payoff_from_expression. intros Hp. rewrite Hp.
  destruct (visit_mod _) as [[]|e]; cbn [bind]; [|discriminate].
  intros H. injection H as <-. intros price path v. cbn [payoff eval].
  intros H. apply bind_ok_inv in H as (r & Hr & Hf).
  apply bind_ok_inv in Hr as (a & _ & Hc).
  destruct (eval_compare_bool _ _ _ _ _ Hc) as ([|] & ->); cbn [py_float] in Hf;
    injection Hf as <-; [right | left]; reflexivity.
Qed.

Lemma parse_digital_payoff :
  ast_parse "price > 100" =
  Parsed (Expression (Compare (Name "price" Load) [Gt] [Constant (CInt 100)])).
Proof. vm_compute. reflexivity. Qed.

Lemma comparison_payoffs_are_digital_witness :
  exists f, payoff_from_expression "price > 100" = Ok f /\
    forall v, f 120 [] = Ok v -> v = 0 \/ v = 1.
Proof.
  eexists. split.
  - apply payoff_from_expression_compiled; [exact parse_digital_payoff | vm_compute; reflexivity].
  - exact (comparison_payoffs_are_digital "price > 100" _ _ _ _ parse_digital_payoff
             (payoff_from_expression_compiled _ _ parse_digital_payoff (eq_refl (Ok tt))) 120 []).
Defined.

End PayoffExtras.

(** ** The JSON endpoint *)

Module WebExtras.
Import WebOptionServer.
#[local] Open Scope string_scope.

Lemma api_price_ok_body payload draws body :
  api_price payload draws = Ok (Json200 body) -> api_price_body payload draws = Ok body.
Proof.
  unfold api_price. destruct (api_price_body payload draws) as [b|e]; intros H.
  - injection H as <-. reflexivity.
  - destruct e; discriminate H.
Qed.

Lemma as_int_positive data name z : as_int data name = Ok z -> (0 < z)%Z.
Proof.
  unfold as_int.
  match goal with |- bind ?m _ = _ -> _ => destruct m as [v|e] end; cbn [bind];
    [|discriminate].
  destruct (v <=? 0)%Z eqn:Hv; [discriminate|]. intros H. injection H as <-. lia.
Qed.

(** What a successful [_parse_inputs] has checked. *)
Lemma parse_inputs_ok data params expression :
  _parse_inputs data = Ok (params, expression) ->
  (0 < steps params)%Z /\ (0 < paths params)%Z /\
  payoff_text (json_get data "payoff") = Ok expression /\ expression <> ""%string.
Proof.
  unfold _parse_inputs.
  destruct (payoff_text _) as [t|e]; cbn [bind]; [|discriminate].
  destruct (String.eqb t "") eqn:Ht; [discriminate|].
  destruct (as_float data "spot") as [a|e]; cbn [bind]; [|discriminate].
  destruct (as_float data "maturity") as [b|e]; cbn [bind]; [|discriminate].
  destruct (as_float data "rate") as [c|e]; cbn [bind]; [|discriminate].
  destruct (as_float data "volatility") as [d|e]; cbn [bind]; [|discriminate].
  destruct (as_int data "steps") as [s|e] eqn:Hs; cbn [bind]; [|discriminate].
  destruct (as_int data "paths") as [p|e] eqn:Hp; cbn [bind]; [|discriminate].
  intros H. injection H as <- <-. cbn [steps paths].
  split; [exact (as_int_positive _ _ _ Hs)|]. split; [exact (as_int_positive _ _ _ Hp)|].
  split; [reflexivity|]. intros ->. discriminate Ht.
Qed.

(** A run whose validation passes and whose payoff raises [e] everywhere
    raises [e] on its first path. *)
Lemma mc_payoff_raises spot maturity rate volatility steps paths payoff draws e :
  0 < spot -> 0 < maturity -> (0 < steps)%Z -> (0 < paths)%Z -> 0 <= volatility ->
  (forall p l, payoff p l = Err e) ->
  MonteCarloOption.monte_carlo_option_price spot maturity rate volatility steps paths payoff draws
    = Err e.
Proof.
  intros Hspot Hmat Hsteps Hpaths Hvol Hpay. unfold MonteCarloOption.monte_carlo_option_price.
  rewrite (proj2 (MonteCarloProofs.validate_inputs_ok spot maturity rate volatility steps paths))
    by (repeat split; assumption).
  cbn [bind]. rewrite py_div_ok by (apply Rgt_not_eq, IZR_lt; lia). cbn [bind].
  rewrite math_sqrt_ok by (left; apply Rdiv_lt_0_compat; [lra | apply IZR_lt; lia]).
  cbn [bind]. cbv zeta.
  destruct (Z.to_nat paths) as [|m] eqn:Hm; [lia|].
  cbn [MonteCarloOption.simulate_paths].
  destruct (MonteCarloOption.simulate_path _ _ _ _ _ _ _) as [[price prices] pos1].
  rewrite Hpay. reflexivity.
Qed.

Lemma in_firstn_in {A : Type} (n : nat) (x : A) (l : list A) : In x (firstn n l) -> In x l.
Proof.
  intros H. rewrite <- (firstn_skipn n l). apply in_or_app. left. exact H.
Qed.

(** The request of the page's API example, with [gauss] returning
    [k / 10] at its [k]-th call. *)
Lemma api_sample_runs :
  exists body,
    api_price (JObject [("spot", JInt 100); ("maturity", JInt 1); ("rate", JFloat (1 / 20));
                        ("volatility", JFloat (2 / 10)); ("steps", JInt 2); ("paths", JInt 3);
                        ("payoff", JStr " max(price - 100, 0) ")])
      (fun k => INR k / 10) = Ok (Json200 body).
Proof.
  unfold api_price, api_price_body. cbn [bind].
  match goal with |- context [_parse_inputs ?d] =>
    assert (Hp : _parse_inputs d =
              Ok ({| spot := IZR 100; maturity := IZR 1; rate := 1 / 20; volatility := 2 / 10;
                     steps := 2; paths := 3 |}, "max(price - 100, 0)"%string)) by reflexivity
  end.
  rewrite Hp. cbn [bind].
  rewrite (PayoffProofs.payoff_from_expression_compiled _ _ PayoffProofs.parse_max_payoff)
    by (vm_compute; reflexivity).
  cbn [bind spot maturity rate volatility steps paths].
  destruct (MonteCarloProofs.monte_carlo_runs (IZR 100) (IZR 1) (1 / 20) (2 / 10) 2 3
              (PayoffExpression.payoff
                 (PayoffExpression.Expression
                    (PayoffExpression.Call (PayoffExpression.Name "max" PayoffExpression.Load)
                       [PayoffExpression.BinOp (PayoffExpression.Name "price" PayoffExpression.Load)
                          PayoffExpression.Sub
                          (PayoffExpression.Constant (PayoffExpression.CInt 100));
                        PayoffExpression.Constant (PayoffExpression.CInt 0)] [])))
              (fun k => INR k / 10))
    as (res & Hr); try lra; try lia.
  { intros p l. eexists. apply PayoffProofs.max_payoff_value. }
  rewrite Hr. cbn [bind]. eexists. reflexivity.
Qed.

(** X18: a 200 response of [api_price] reports the run it made: the body
    was a JSON object whose fields [_parse_inputs] accepted, [path_count] is
    the requested number of paths and [steps] the requested number of
    steps, at most 3 sample paths and 5 sample payoffs are returned, and
    every sample path has [steps + 1] prices starting at [spot]. *)
Theorem api_price_reports_run payload draws body :
  api_price payload draws = Ok (Json200 body) ->
  exists fields params expression,
    payload = JObject fields /\
    _parse_inputs fields = Ok (params, expression) /\
    path_count body = Z.to_nat (paths params) /\
    formatted_steps body = steps params /\
    List.length (sample_paths body) = Nat.min 3 (Z.to_nat (paths params)) /\
    List.length (sample_payoffs body) = Nat.min 5 (Z.to_nat (paths params)) /\
    Forall (fun path => List.length path = S (Z.to_nat (steps params)) /\
                        nth 0 path 0 = spot params) (sample_paths body).
Proof.
  intros H. apply api_price_ok_body in H. unfold api_price_body in H.
  destruct payload as [| | | | | |fields]; cbn [bind] in H; try discriminate H.
  destruct (_parse_inputs fields) as [[params expression]|e] eqn:Hp; cbn [bind] in H;
    [|discriminate H].
  destruct (PayoffExpression.payoff_from_expression expression) as [f|e]; cbn [bind] in H;
    [|discriminate H].
  destruct (MonteCarloOption.monte_carlo_option_price _ _ _ _ _ _ _ _) as [res|e] eqn:Hmc;
    cbn [bind] in H; [|discriminate H].
  injection H as <-.
  destruct (MonteCarloExtras.monte_carlo_paths _ _ _ _ _ _ _ _ _ Hmc)
    as (_ & _ & Hst & Hpa & _ & Hl1 & Hl2 & _ & Hi).
  exists fields, params, expression. split; [reflexivity|]. split; [exact Hp|].
  unfold _format_result. cbn [path_count formatted_steps sample_paths sample_payoffs].
  split; [exact Hl1|].
  split.
  { destruct (MonteCarloOption.paths res) as [|first rest] eqn:Hps.
    - cbn [List.length] in Hl1. lia.
    - destruct (Hi 0%nat ltac:(lia)) as (Hlen & _). cbn [nth] in Hlen.
      rewrite Hlen, Nat2Z.inj_succ, Z2Nat.id; lia. }
  split; [rewrite length_firstn, Hl1; reflexivity|].
  split; [rewrite length_firstn, Hl2; reflexivity|].
  apply Forall_forall. intros path Hin. apply in_firstn_in in Hin.
  destruct (In_nth _ _ [] Hin) as (i & Hlt & <-). rewrite Hl1 in Hlt.
  destruct (Hi i Hlt) as (Hlen & H0 & _). split; assumption.
Qed.

Lemma api_price_reports_run_witness :
  exists body,
    api_price (JObject [("spot", JInt 100); ("maturity", JInt 1); ("rate", JFloat (1 / 20));
                        ("volatility", JFloat (2 / 10)); ("steps", JInt 2); ("paths", JInt 3);
                        ("payoff", JStr " max(price - 100, 0) ")])
      (fun k => INR k / 10) = Ok (Json200 body) /\
    exists fields params expression,
      JObject [("spot", JInt 100); ("maturity", JInt 1); ("rate", JFloat (1 / 20));
               ("volatility", JFloat (2 / 10)); ("steps", JInt 2); ("paths", JInt 3);
               ("payoff", JStr " max(price - 100, 0) ")] = JObject fields /\
      _parse_inputs fields = Ok (params, expression) /\
      path_count body = Z.to_nat (paths params) /\
      formatted_steps body = steps params /\
      List.length (sample_paths body) = Nat.min 3 (Z.to_nat (paths params)) /\
      List.length (sample_payoffs body) = Nat.min 5 (Z.to_nat (paths params)) /\
      Forall (fun path => List.length path = S (Z.to_nat (steps params)) /\
                          nth 0 path 0 = spot params) (sample_paths body).
Proof.
  destruct api_sample_runs as (body & H). exists body. split; [exact H|].
  exact (api_price_reports_run _ _ body H).
Defined.

(** X19: a payoff that is missing, falsy ([null], [false], [0], [""], an
    empty list or object) or a string of whitespace is answered with status
    400 and ["payoff expression is required."], whatever the other fields. *)
Theorem blank_payoff_rejected fields draws :
  json_get fields "payoff" = None \/
  (exists v, json_get fields "payoff" = Some v /\ json_truthy v = false) \/
  (exists s, json_get fields "payoff" = Some (JStr s) /\ py_strip s = ""%string) ->
  api_price (JObject fields) draws = Ok (Json400 "payoff expression is required.").
Proof.
  intros H. assert (Ht : payoff_text (json_get fields "payoff") = Ok ""%string).
  { destruct H as [-> | [(v & -> & Hv) | (s & -> & Hs)]]; unfold payoff_text.
    - reflexivity.
    - rewrite Hv. destruct v; reflexivity.
    - destruct (json_truthy (JStr s)); cbv beta iota; [rewrite Hs|]; reflexivity. }
  unfold api_price, api_price_body, _parse_inputs. cbn [bind]. rewrite Ht. reflexivity.
Qed.

Lemma blank_payoff_rejected_witness :
  api_price (JObject [("payoff", JStr " 	 "); ("spot", JInt 100)]) (fun _ => 0) =
    Ok (Json400 "payoff expression is required.").
Proof.
  apply blank_payoff_rejected. right. right. exists " 	 "%string. split; reflexivity.
Defined.

(** X20: a payoff that is truthy but not a string has no [strip]: the
    [AttributeError] is not a [ValueError], so it leaves [api_price]
    uncaught instead of giving a 400 response. *)
Theorem non_string_payoff_escapes fields draws v :
  json_get fields "payoff" = Some v -> json_truthy v = true -> (forall s, v <> JStr s) ->
  api_price (JObject fields) draws = Err (AttributeError "strip").
Proof.
  intros Hg Ht Hs.
  assert (Hpt : payoff_text (json_get fields "payoff") = Err (AttributeError "strip")).
  { unfold payoff_text. rewrite Hg. cbv beta iota zeta. rewrite Ht.
    destruct v; try reflexivity. exfalso. eapply Hs. reflexivity. }
  unfold api_price, api_price_body, _parse_inputs. cbn [bind]. rewrite Hpt. reflexivity.
Qed.

Lemma non_string_payoff_escapes_witness :
  api_price (JObject [("payoff", JInt 5); ("spot", JInt 100)]) (fun _ => 0) =
    Err (AttributeError "strip").
Proof.
  apply (non_string_payoff_escapes _ _ (JInt 5)); [reflexivity | reflexivity | discriminate].
Defined.

(** X21: a number field that is missing, [null], a list, an object or a
    blank string is reported as ["<name> must be a number."] by [as_float]
    and as ["<name> must be an integer."] by [as_int]. *)
Theorem absent_numbers_rejected data name :
  json_get data name = None \/ json_get data name = Some JNull \/
  (exists items, json_get data name = Some (JArray items)) \/
  (exists fs, json_get data name = Some (JObject fs)) \/
  (exists s, json_get data name = Some (JStr s) /\ py_strip s = ""%string) ->
  as_float data name = Err (ValueError (String.append name " must be a number.")) /\
  as_int data name = Err (ValueError (String.append name " must be an integer.")).
Proof.
  intros H. unfold as_float, as_int, get_or_empty.
  destruct H as [-> | [-> | [(items & ->) | [(fs & ->) | (s & -> & Hs)]]]];
    try (split; reflexivity).
  unfold json_float, json_int, py_float_of_str, py_int_of_str. rewrite Hs. split; reflexivity.
Qed.

Lemma absent_numbers_rejected_witness :
  as_float [("spot", JNull)] "spot" = Err (ValueError "spot must be a number.") /\
  as_int [("spot", JNull)] "paths" = Err (ValueError "paths must be an integer.").
Proof.
  split.
  - exact (proj1 (absent_numbers_rejected [("spot", JNull)] "spot" (or_intror (or_introl eq_refl)))).
  - exact (proj2 (absent_numbers_rejected [("spot", JNull)] "paths" (or_introl eq_refl))).
Defined.

(** X22: a float given for [steps] or [paths] is truncated by [int]: below
    1 it is reported as ["<name> must be positive."]; from 1 on it is
    accepted as its integer part. *)
Theorem fractional_counts_truncated data name x :
  json_get data name = Some (JFloat x) ->
  (x < 1 -> as_int data name = Err (ValueError (String.append name " must be positive."))) /\
  (1 <= x -> as_int data name = Ok (Int_part x) /\ IZR (Int_part x) <= x < IZR (Int_part x) + 1).
Proof.
  intros Hg. unfold as_int, get_or_empty. rewrite Hg. cbn [json_int bind].
  pose proof (base_Int_part x) as [Hb1 Hb2]. pose proof (base_Int_part (- x)) as [Hc1 Hc2].
  split; intros Hx.
  - destruct (Rle_dec 0 x) as [H0|H0].
    + assert (Hle : (Int_part x <= 0)%Z).
      { assert (Hlt : (Int_part x < 1)%Z) by (apply lt_IZR; lra). lia. }
      rewrite (proj2 (Z.leb_le _ _) Hle). reflexivity.
    + assert (Hle : (- Int_part (- x) <= 0)%Z).
      { assert (Hlt : (-1 < Int_part (- x))%Z) by (apply lt_IZR; lra). lia. }
      rewrite (proj2 (Z.leb_le _ _) Hle). reflexivity.
  - destruct (Rle_dec 0 x) as [H0|H0]; [|lra].
    assert (Hgt : (0 < Int_part x)%Z) by (apply lt_IZR; lra).
    rewrite (proj2 (Z.leb_gt _ _) Hgt). split; [reflexivity | lra].
Qed.

Lemma fractional_counts_truncated_witness :
  as_int [("steps", JFloat (9 / 10))] "steps" = Err (ValueError "steps must be positive.") /\
  as_int [("steps", JFloat (27 / 10))] "steps" = Ok (Int_part (27 / 10)).
Proof.
  split.
  - apply (proj1 (fractional_counts_truncated [("steps", JFloat (9 / 10))] "steps" (9 / 10)
                    eq_refl)). lra.
  - apply (proj2 (fractional_counts_truncated [("steps", JFloat (27 / 10))] "steps" (27 / 10)
                    eq_refl)). lra.
Defined.

(** X23: when the inputs parse and pass validation, a payoff expression
    whose compiled payoff raises [e] on every input decides the response: a
    [ValueError] becomes a 400 response with its message, any other
    exception (such as the [ZeroDivisionError] of
    ["price / (price - price)"]) leaves [api_price] uncaught. *)
Theorem payoff_errors_reach_handler fields draws params expression f e :
  _parse_inputs fields = Ok (params, expression) ->
  PayoffExpression.payoff_from_expression expression = Ok f ->
  (forall p path, f p path = Err e) ->
  0 < spot params -> 0 < maturity params -> 0 <= volatility params ->
  api_price (JObject fields) draws =
    match e with ValueError msg => Ok (Json400 msg) | _ => Err e end.
Proof.
  intros Hp Hf Hraise Hspot Hmat Hvol.
  destruct (parse_inputs_ok _ _ _ Hp) as (Hst & Hpa & _).
  unfold api_price, api_price_body. cbn [bind]. rewrite Hp. cbn [bind]. rewrite Hf. cbn [bind].
  rewrite (mc_payoff_raises _ _ _ _ _ _ _ _ e Hspot Hmat Hst Hpa Hvol Hraise).
  cbn [bind]. destruct e; reflexivity.
Qed.

Lemma payoff_errors_reach_handler_witness :
  api_price (JObject [("spot", JInt 100); ("maturity", JInt 1); ("rate", JFloat (1 / 20));
                      ("volatility", JFloat (2 / 10)); ("steps", JInt 2); ("paths", JInt 3);
                      ("payoff", JStr "price / (price - price)")])
    (fun k => INR k / 10) = Err ZeroDivisionError.
Proof.
  eapply (payoff_errors_reach_handler _ _
            {| spot := IZR 100; maturity := IZR 1; rate := 1 / 20; volatility := 2 / 10;
               steps := 2; paths := 3 |} "price / (price - price)" _ ZeroDivisionError).
  - reflexivity.
  - apply PayoffProofs.payoff_from_expression_compiled;
      [exact PayoffProofs.parse_division_payoff | vm_compute; reflexivity].
  - apply PayoffProofs.division_payoff_value.
  - cbn [spot]. lra.
  - cbn [maturity]. lra.
  - cbn [volatility]. lra.
Defined.

End WebExtras.
